(** * txjuju: the test doubles of the API protocol (txjuju/testing/api.py)

    A shallow embedding of [FakeAPIBackend], the fake transport wired to an
    [APIClientProtocol], and of [FakeAPIClientProtocol], the fake protocol
    that answers requests in first-in first-out order, together with the
    properties the specification states about request correlation,
    connection loss and delta batches.

    Python objects that are mutated in place (the backend, the protocol,
    Twisted's Deferreds) become explicit state; a raised exception leaves
    the mutations made before it in place, so every operation returns both
    a result (a value or the exception) and the state it left behind. *)

From stdpp Require Import base option list gmap strings pretty.
From Stdlib Require Import ZArith Lia.

Local Open Scope string_scope.
Local Open Scope Z_scope.
Local Open Scope list_scope.

(** ** Exceptions and the state-and-exception monad *)

(** The Python exceptions the modelled code can raise. *)
Inductive exn : Set :=
  | IndexError          (* [l[0]] on an empty list *)
  | ValueError          (* [l.remove(x)] when [x] is not in [l] *)
  | KeyError            (* [d[k]] when [k] is not a key of [d] *)
  | TypeError
  | AssertionError      (* a failed [assert] *)
  | AlreadyCalledError  (* firing a Deferred that has fired *)
  | Unmodelled.         (* not an exception: a value the embedding leaves out *)

Inductive result (A : Type) : Type :=
  | Ok (a : A)
  | Raise (e : exn).
Arguments Ok {A} a.
Arguments Raise {A} e.

(** A computation over a mutable object of type [S]: it yields a value or
    an exception, and in both cases the state after the mutations made. *)
Definition M (S A : Type) : Type := S → result A * S.

Definition ret {S A} (a : A) : M S A := λ s, (Ok a, s).

Definition bind {S A B} (m : M S A) (k : A → M S B) : M S B :=
  λ s, match m s with
       | (Ok a, s') => k a s'
       | (Raise e, s') => (Raise e, s')
       end.

Definition raise {S A} (e : exn) : M S A := λ s, (Raise e, s).
Definition get {S} : M S S := λ s, (Ok s, s).
Definition gets {S A} (f : S → A) : M S A := λ s, (Ok (f s), s).
Definition modify {S} (f : S → S) : M S unit := λ s, (Ok tt, f s).

(** The statement [assert b]. *)
Definition assert {S} (b : bool) : M S unit :=
  if b then ret tt else raise AssertionError.

Declare Scope py_scope.
Delimit Scope py_scope with py.
Notation "'let!' x ':=' m 'in' k" := (bind m (λ x, k))
  (at level 10, x name, m at level 100, k at level 200) : py_scope.
Notation "m ;;; k" := (bind m (λ _, k))
  (at level 100, right associativity) : py_scope.
Local Open Scope py_scope.

(** [for x in l: body(x)]. *)
Fixpoint for_each {S A} (l : list A) (body : A → M S unit) : M S unit :=
  match l with
  | [] => ret tt
  | x :: l' => body x ;;; for_each l' body
  end.

(** The state a computation leaves, and what it returned or raised. *)
Definition state_after {S A} (m : M S A) (s : S) : S := snd (m s).
Definition outcome_of {S A} (m : M S A) (s : S) : result A := fst (m s).

(** ** JSON values

    [json.dumps] turns a payload into text and [json.loads] reads the same
    value back; the embedding passes the value itself.  An object is kept
    as its list of members. *)
#[local] Set Warnings "-register-all".
Inductive json : Type :=
  | JNull
  | JBool (b : bool)
  | JInt (z : Z)
  | JStr (s : string)
  | JList (l : list json)
  | JObj (members : list (string * json)).

(** [d.get(k)] on the members of an object. *)
Fixpoint assoc_get (k : string) (kvs : list (string * json)) : option json :=
  match kvs with
  | [] => None
  | (k', v) :: rest => if String.eqb k k' then Some v else assoc_get k rest
  end.

(** [d[k] = v] on the members of an object: replaces the value of an
    existing key in place, appends a new key. *)
Fixpoint assoc_set (k : string) (v : json) (kvs : list (string * json))
  : list (string * json) :=
  match kvs with
  | [] => [(k, v)]
  | (k', v') :: rest =>
      if String.eqb k k' then (k, v) :: rest else (k', v') :: assoc_set k v rest
  end.

Definition json_get (k : string) (j : json) : option json :=
  match j with
  | JObj kvs => assoc_get k kvs
  | _ => None
  end.

(** ** Twisted: failures and Deferreds *)

Module Twisted.

(** What a [Failure] wraps. *)
Inductive failure : Type :=
  | ConnectionDone                       (* twisted.internet.error *)
  | ConnectionLost (message : string)    (* twisted.internet.error *)
  | OtherFailure (description : json).

(** The result a Deferred holds once it has fired. *)
Inductive fired : Type :=
  | Success (content : json)
  | Failed (reason : failure).

(** A Deferred without callbacks attached: whether it has been called,
    and with what. *)
Record Deferred : Type := mkDeferred {
  called : bool;
  result_of : option fired
}.

(** [Deferred()] *)
Definition fresh : Deferred := mkDeferred false None.

(** [d.callback(content)] and [d.errback(reason)]: both raise
    [AlreadyCalledError] when [d] has already been called. *)
Definition fire (r : fired) (d : Deferred) : result Deferred :=
  if called d then Raise AlreadyCalledError
  else Ok (mkDeferred true (Some r)).

Definition callback (content : json) : Deferred → result Deferred :=
  fire (Success content).
Definition errback (reason : failure) : Deferred → result Deferred :=
  fire (Failed reason).

(** Failures that tell the connection is gone. *)
Definition connection_closed (f : failure) : bool :=
  match f with
  | ConnectionDone | ConnectionLost _ => true
  | OtherFailure _ => false
  end.

End Twisted.

(** ** Juju entities and deltas

    The entity classes live in another module of the package; their fields
    are the ones the formatters below read, and the four kinds are the ones
    a formatter exists for.  An instance of any other class has no
    formatter ([getattr] raises [AttributeError]) and is not a value of
    this type. *)
Inductive entity : Type :=
  | AnnotationInfo (name pairs : json)
  | JujuApplicationInfo (name charmURL : json)
  | UnitInfo (name applicationName charmURL : json)
  | MachineInfo (id instanceId status : json).

(** An element of the list given to [responseDeltas]: an entity, or the
    2-tuple of an entity and a verb. *)
Inductive delta : Type :=
  | Bare (instance : entity)
  | Tuple (instance : entity) (verb : string).

(** ** FakeAPIBackend *)

Module FakeAPIBackend.

(** The calls the backend makes on its [APIClientProtocol], which is not
    part of these sources: the backend keeps them in the order made. *)
Inductive protocol_call : Type :=
  | makeConnection
  | dataReceived (data : json)
  | connectionLost (reason : Twisted.failure).

Record state : Type := mkState {
  requests : gmap Z json;
  pending : list Z;
  protocol : list protocol_call;
  connected : bool;
  version : Z
}.

Definition set_requests (f : gmap Z json → gmap Z json) (s : state) : state :=
  mkState (f (requests s)) (pending s) (protocol s) (connected s) (version s).
Definition set_pending (f : list Z → list Z) (s : state) : state :=
  mkState (requests s) (f (pending s)) (protocol s) (connected s) (version s).
Definition call_protocol (c : protocol_call) (s : state) : state :=
  mkState (requests s) (pending s) (protocol s ++ [c]) (connected s) (version s).
Definition set_connected (b : bool) (s : state) : state :=
  mkState (requests s) (pending s) (protocol s) b (version s).

(** [__init__(self, version=1)] *)
Definition init (version : Z) : state :=
  mkState ∅ [] [makeConnection] true version.

(** [write(self, data)].  Request ids are integers; a payload whose
    [RequestId] is another JSON value is left out of the embedding:
    the code appends such an id to [pending] and stores the payload under
    it, raising [TypeError] after the append when the id is a list or an
    object, and a state of integer ids cannot hold it.  [Unmodelled] marks
    such a call, and what is stated of arbitrary sequences of calls is
    stated of writes with integer ids ([Shape.integer_id]). *)
Definition write (data : json) : M state unit :=
  match data with
  | JObj payload =>
      match assoc_get "RequestId" payload with
      | None => raise KeyError
      | Some (JInt request_id) =>
          modify (set_pending (λ p, p ++ [request_id])) ;;;
          modify (set_requests (insert request_id data))
      | Some _ => raise Unmodelled
      end
  | _ => raise TypeError
  end.

(** [loseConnection(self)] *)
Definition loseConnection : M state unit :=
  modify (set_connected false) ;;;
  let reason := Twisted.ConnectionLost "Lost the connection" in
  modify (call_protocol (connectionLost reason)).

(** [l.remove(x)]: drops the first occurrence of [x]; [None] stands for
    the [ValueError] raised when there is none. *)
Fixpoint list_remove (x : Z) (l : list Z) : option (list Z) :=
  match l with
  | [] => None
  | y :: l' => if Z.eqb x y then Some l' else cons y <$> list_remove x l'
  end.

(** [_fire(self, payload, requestId)].  The payload is made of JSON
    values, which [json.dumps] always encodes; the call on the protocol is
    recorded. *)
Definition _fire (payload : list (string * json)) (requestId : option Z)
  : M state unit :=
  let! requestId :=
    match requestId with
    | None =>
        (* If no requestId is specified, we take the oldest pending
           request *)
        let! p := gets pending in
        match p with
        | [] => raise IndexError
        | oldest :: _ => ret oldest
        end
    | Some requestId => ret requestId
    end in
  let payload := assoc_set "RequestId" (JInt requestId) payload in
  let! p := gets pending in
  match list_remove requestId p with
  | None => raise ValueError
  | Some p' =>
      modify (set_pending (λ _, p')) ;;;
      modify (call_protocol (dataReceived (JObj payload)))
  end.

(** The payload as [_fire] hands it to the protocol: with the request id
    set. *)
Definition addressed (payload : list (string * json)) (requestId : Z) : json :=
  JObj (assoc_set "RequestId" (JInt requestId) payload).

(** [response(self, response, requestId=None)] *)
Definition response (response : json) (requestId : option Z) : M state unit :=
  let payload := [("Response", response)] in
  _fire payload requestId.

(** The exception given to [error]: its [error] and [code] attributes. *)
Record api_error : Type := mkError { error_message : json; code : json }.

(** [error(self, exception, requestId=None)] *)
Definition error (exception : api_error) (requestId : option Z) : M state unit :=
  let payload := [("Error", error_message exception);
                  ("ErrorCode", code exception)] in
  _fire payload requestId.

(** [responseWatchAll(self)] *)
Definition responseWatchAll : M state unit :=
  response (JObj [("AllWatcherId", JStr "1")]) None.

(** [responseSetAnnotations(self, requestId=None)]: the id is ignored. *)
Definition responseSetAnnotations (requestId : option Z) : M state unit :=
  response (JObj []) None.

Definition _formatAnnotationInfo (name pairs : json) (verb : string) : json :=
  JList [JStr "annotation"; JStr verb;
         JObj [("Annotations", pairs); ("Tag", name)]].

Definition _formatJujuApplicationInfo (version : Z) (name charmURL : json)
    (verb : string) : json :=
  let entityName :=
    if Z.eqb version 1 then "service" else "application" in
  JList [JStr entityName; JStr verb;
         JObj [("Name", name); ("CharmURL", charmURL)]].

Definition _formatUnitInfo (name applicationName charmURL : json)
    (verb : string) : json :=
  JList [JStr "unit"; JStr verb;
         JObj [("Name", name); ("Service", applicationName);
               ("CharmURL", charmURL)]].

Definition _formatMachineInfo (id instanceId status : json) (verb : string)
  : json :=
  JList [JStr "machine"; JStr verb;
         JObj [("Id", id); ("InstanceId", instanceId); ("Status", status)]].

(** The method [getattr(self, "_format" + delta[0].__class__.__name__)]
    applied to the instance and the verb: the formatter named after the
    class of the instance. *)
Definition formatter (version : Z) (info : entity) (verb : string) : json :=
  match info with
  | AnnotationInfo name pairs => _formatAnnotationInfo name pairs verb
  | JujuApplicationInfo name charmURL =>
      _formatJujuApplicationInfo version name charmURL verb
  | UnitInfo name applicationName charmURL =>
      _formatUnitInfo name applicationName charmURL verb
  | MachineInfo id instanceId status =>
      _formatMachineInfo id instanceId status verb
  end.

(** One turn of the loop of [responseDeltas]. *)
Definition append_delta (version : Z) (responses : list json) (d : delta)
  : list json :=
  let '(instance, verb) :=
    match d with
    | Tuple instance verb => (instance, verb)
    | Bare instance => (instance, "change")
    end in
  responses ++ [formatter version instance verb].

(** The formatted form of one delta: the formatter of its instance,
    with the verb [change] when none is given. *)
Definition format_delta (version : Z) (d : delta) : json :=
  match d with
  | Bare instance => formatter version instance "change"
  | Tuple instance verb => formatter version instance verb
  end.

(** [responseDeltas(self, deltas)] *)
Definition responseDeltas (deltas : list delta) : M state unit :=
  let! v := gets version in
  let responses := fold_left (append_delta v) deltas [] in
  response (JObj [("Deltas", JList responses)]) None.

(** *** The test-oriented properties and the other replies *)

(** [max(l)]; [None] stands for the [ValueError] raised on an empty
    sequence. *)
Fixpoint list_max (l : list Z) : option Z :=
  match l with
  | [] => None
  | x :: l' => Some (from_option (Z.max x) x (list_max l'))
  end.

(** The property [last]: [self.requests[max(self.requests.keys())]]. *)
Definition last : M state json :=
  let! r := gets requests in
  match list_max (map_to_list r).*1 with
  | None => raise ValueError
  | Some k =>
      match r !! k with
      | Some payload => ret payload
      | None => raise KeyError
      end
  end.

(** [payload[key]] *)
Definition getitem (key : string) (payload : json) : M state json :=
  match payload with
  | JObj members =>
      match assoc_get key members with
      | Some v => ret v
      | None => raise KeyError
      end
  | _ => raise TypeError
  end.

(** The properties [lastType], [lastRequest], [lastId], [lastParams] and
    [lastRequestId]: [self.last[key]]. *)
Definition lastType : M state json := let! p := last in getitem "Type" p.
Definition lastRequest : M state json := let! p := last in getitem "Request" p.
Definition lastId : M state json := let! p := last in getitem "Id" p.
Definition lastParams : M state json := let! p := last in getitem "Params" p.
Definition lastRequestId : M state json :=
  let! p := last in getitem "RequestId" p.

(** The property [lastVersion]: [self.last.get("Version")]; [None] is
    Python's [None].  Every payload [write] stores is an object; [get] on
    another value is left out of the embedding. *)
Definition lastVersion : M state (option json) :=
  let! p := last in
  match p with
  | JObj members => ret (assoc_get "Version" members)
  | _ => raise Unmodelled
  end.

(** One element of [api_servers] in [responseLogin]; ["net-%d" % index]
    is the decimal numeral of the index after ["net-"]. *)
Definition api_server (index : nat) (endpoint : json) : json :=
  JList [JObj [("NetworkName", JStr ("net-" +:+ pretty index));
               ("Port", JInt 17070);
               ("Scope", JStr "local-cloud");
               ("Type", JStr "ipv4");
               ("Value", endpoint)]].

(** [responseLogin(self, endpoints)] *)
Definition responseLogin (endpoints : list json) : M state unit :=
  let api_servers := imap api_server endpoints in
  response (JObj [("EnvironTag", JStr "environment-uuid-123");
                  ("Servers", JList api_servers)]) None.

(** The default of [endpoints]. *)
Definition default_endpoints : list json := [JStr "host"].

(** [responseLoginAndWatchAll(self)] *)
Definition responseLoginAndWatchAll : M state unit :=
  responseLogin default_endpoints ;;;
  responseWatchAll.

(** [responseServiceGet(self, name, config)]; the default of [config] is
    the empty object. *)
Definition responseServiceGet (name config : json) : M state unit :=
  response (JObj [("Service", name); ("Charm", name);
                  ("Constraints", JObj []); ("Config", config)]) None.

(** The methods of the backend, as a test or the protocol calls them. *)
Inductive method : Type :=
  | call_write (data : json)
  | call_loseConnection
  | call_response (r : json) (requestId : option Z)
  | call_error (exception : api_error) (requestId : option Z)
  | call_responseLogin (endpoints : list json)
  | call_responseWatchAll
  | call_responseLoginAndWatchAll
  | call_responseDeltas (deltas : list delta)
  | call_responseSetAnnotations (requestId : option Z)
  | call_responseServiceGet (name config : json).

Definition invoke (m : method) : M state unit :=
  match m with
  | call_write data => write data
  | call_loseConnection => loseConnection
  | call_response r requestId => response r requestId
  | call_error exception requestId => error exception requestId
  | call_responseLogin endpoints => responseLogin endpoints
  | call_responseWatchAll => responseWatchAll
  | call_responseLoginAndWatchAll => responseLoginAndWatchAll
  | call_responseDeltas deltas => responseDeltas deltas
  | call_responseSetAnnotations requestId => responseSetAnnotations requestId
  | call_responseServiceGet name config => responseServiceGet name config
  end.

(** The backend after a sequence of calls; a call that raises leaves its
    state behind and the next call is made all the same. *)
Definition history (calls : list method) (s : state) : state :=
  fold_left (λ s m, state_after (invoke m) s) calls s.

End FakeAPIBackend.

(** ** FakeAPIClientProtocol *)

Module FakeAPIClientProtocol.
Import Twisted.

(** The tuple [(entityType, requestInfo, entityId, params,
    facade_version)] holding the arguments of a [sendRequest] call. *)
Record request : Type := mkRequest {
  entityType : string;
  requestInfo : string;
  entityId : option string;
  params : option json;
  facade_version : Z
}.

(** A reference to a Deferred: the protocol keeps the Deferred it
    returned to the caller in [_pending_requests], so both name one
    object.  References are positions in [store], in allocation order. *)
Abbreviation ref := nat (only parsing).

Record state : Type := mkState {
  connected : bool;
  disconnected : Deferred;
  _pending_requests : list (request * ref);
  _queued_errors : list failure;
  _queued_responses : list (string * string * json);
  store : list Deferred
}.

Definition set_connected (b : bool) (s : state) : state :=
  mkState b (disconnected s) (_pending_requests s) (_queued_errors s)
          (_queued_responses s) (store s).
Definition set_disconnected (d : Deferred) (s : state) : state :=
  mkState (connected s) d (_pending_requests s) (_queued_errors s)
          (_queued_responses s) (store s).
Definition set_pending_requests (p : list (request * ref)) (s : state) : state :=
  mkState (connected s) (disconnected s) p (_queued_errors s)
          (_queued_responses s) (store s).
Definition set_queued_errors (q : list failure) (s : state) : state :=
  mkState (connected s) (disconnected s) (_pending_requests s) q
          (_queued_responses s) (store s).
Definition set_queued_responses (q : list (string * string * json))
    (s : state) : state :=
  mkState (connected s) (disconnected s) (_pending_requests s)
          (_queued_errors s) q (store s).
Definition set_store (h : list Deferred) (s : state) : state :=
  mkState (connected s) (disconnected s) (_pending_requests s)
          (_queued_errors s) (_queued_responses s) h.

(** [__init__(self)]; [connected = True] is the class attribute. *)
Definition init : state := mkState true fresh [] [] [] [].

(** [Deferred()]: a new object, named by the next free position. *)
Definition new_Deferred : M state ref :=
  let! h := gets store in
  modify (set_store (h ++ [fresh])) ;;;
  ret (length h).

(** [response.callback(..)] and [response.errback(..)] on the object a
    reference names.  Every reference the protocol holds was allocated
    by [new_Deferred]; the branch for a position outside the store
    cannot be reached from [init] and leaves the state alone. *)
Definition fire_ref (r : ref) (v : fired) : M state unit :=
  let! h := gets store in
  match h !! r with
  | Some d =>
      match fire v d with
      | Ok d' => modify (set_store (<[r := d']> h))
      | Raise e => raise e
      end
  | None => ret tt
  end.

(** [response.called]; a position outside the store, which no reference
    held is, counts as called, so that nothing is fired at it. *)
Definition is_called (r : ref) : M state bool :=
  let! h := gets store in
  ret (default true (called <$> h !! r)).

(** [sendRequest(self, entityType, requestInfo, entityId=None,
    params=None, facade_version=1)] *)
Definition sendRequest (entityType requestInfo : string)
    (entityId : option string) (params : option json) (facade_version : Z)
  : M state ref :=
  let request :=
    mkRequest entityType requestInfo entityId params facade_version in
  let! response := new_Deferred in
  let! queued_errors := gets _queued_errors in
  match queued_errors with
  | reason :: rest =>
      modify (set_queued_errors rest) ;;;
      fire_ref response (Failed reason)
  | [] =>
      let! queued_responses := gets _queued_responses in
      match queued_responses with
      | (prepType, prepInfo, content) :: rest =>
          modify (set_queued_responses rest) ;;;
          assert (String.eqb prepType entityType) ;;;
          assert (String.eqb prepInfo requestInfo) ;;;
          fire_ref response (Success content)
      | [] =>
          let! p := gets _pending_requests in
          modify (set_pending_requests (p ++ [(request, response)]))
      end
  end ;;;
  ret response.

(** The property [request]: the last pending request, or [None]. *)
Definition request_property (s : state) : option request :=
  fst <$> last (_pending_requests s).

(** The property [requests]. *)
Definition requests (s : state) : list request :=
  fst <$> _pending_requests s.

(** [response(self, entityType, request, content)] *)
Definition response (entityType request : string) (content : json)
  : M state unit :=
  let! p := gets _pending_requests in
  match p with
  | (request_info, response) :: rest =>
      modify (set_pending_requests rest) ;;;
      assert (String.eqb entityType (FakeAPIClientProtocol.entityType request_info)
              && String.eqb request (requestInfo request_info)) ;;;
      fire_ref response (Success content)
  | [] =>
      let! q := gets _queued_responses in
      modify (set_queued_responses (q ++ [(entityType, request, content)]))
  end.

(** [error(self, reason)] *)
Definition error (reason : failure) : M state unit :=
  let! p := gets _pending_requests in
  match p with
  | (_, response) :: rest =>
      modify (set_pending_requests rest) ;;;
      fire_ref response (Failed reason)
  | [] =>
      let! q := gets _queued_errors in
      modify (set_queued_errors (q ++ [reason]))
  end.

(** [self.disconnected.callback(None)] *)
Definition fire_disconnected : M state unit :=
  let! d := gets disconnected in
  match callback JNull d with
  | Ok d' => modify (set_disconnected d')
  | Raise e => raise e
  end.

(** [_loseConnection(self)], which is also what
    [self.transport.loseConnection()] runs. *)
Definition _loseConnection : M state unit :=
  modify (set_connected false) ;;;
  let! p := gets _pending_requests in
  for_each p (λ '(_, response),
    let! c := is_called response in
    if negb c then fire_ref response (Failed ConnectionDone) else ret tt) ;;;
  fire_disconnected.

(** Every reference kept in [_pending_requests] names a Deferred of the
    store. *)
Definition allocated (s : state) : Prop :=
  Forall (λ e : request * nat, (e.2 < length (store s))%nat)
         (_pending_requests s).

(** What the caller who holds [r] sees of its Deferred. *)
Definition deferred (r : ref) (s : state) : option Deferred := store s !! r.

(** A Deferred after [errback(ConnectionDone())]. *)
Definition connection_done : Deferred :=
  mkDeferred true (Some (Failed ConnectionDone)).

(** One turn of the loop of [_loseConnection], on the store: the
    Deferred a reference names is rejected unless it has been called. *)
Definition reject (h : list Deferred) (r : ref) : list Deferred :=
  match h !! r with
  | Some d => if called d then h else <[r := connection_done]> h
  | None => h
  end.

(** *** Sequences of calls *)

(** The methods of the fake protocol, as a test or the code under test
    calls them. *)
Inductive method : Type :=
  | call_sendRequest (entityType requestInfo : string)
      (entityId : option string) (params : option json) (facade_version : Z)
  | call_response (entityType request : string) (content : json)
  | call_error (reason : failure)
  | call_loseConnection.

Definition invoke (m : method) : M state unit :=
  match m with
  | call_sendRequest entityType requestInfo entityId params facade_version =>
      sendRequest entityType requestInfo entityId params facade_version ;;;
      ret tt
  | call_response entityType request content =>
      response entityType request content
  | call_error reason => error reason
  | call_loseConnection => _loseConnection
  end.

(** The protocol after a sequence of calls; a call that raises leaves its
    state behind and the next call is made all the same. *)
Definition history (calls : list method) (s : state) : state :=
  fold_left (λ s m, state_after (invoke m) s) calls s.

(** The requests of a list sent one after the other; the Deferreds
    returned, in the order of the calls. *)
Fixpoint send_all (rs : list request) : M state (list nat) :=
  match rs with
  | [] => ret []
  | r :: rs' =>
      let! d := sendRequest (entityType r) (requestInfo r) (entityId r)
                            (params r) (facade_version r) in
      let! ds := send_all rs' in
      ret (d :: ds)
  end.

(** A response to each request of a list, in the order of the list, with
    the entity type and the request name of the request. *)
Definition respond_all (answers : list (request * json)) : M state unit :=
  for_each answers (λ a, response (entityType a.1) (requestInfo a.1) a.2).

End FakeAPIClientProtocol.

(** ** APIClientProtocol, after the specification

    [txjuju.protocol.APIClientProtocol], the protocol the backend drives,
    is not among these sources.  Its three parts, the request correlator,
    the connection lifecycle and the delta stream consumer, are written
    here from the specification's sections 3, 4 and 6. *)

Module APIClientProtocol.

(** Modelled from the spec: the [txjuju.protocol] Request record of the
    data model, [{id, entityType, requestName, entityId, parameters,
    facadeVersion}]. *)
Record Request : Type := mkRequest {
  id : Z;
  entityType : string;
  requestName : string;
  entityId : option string;
  parameters : option json;
  facadeVersion : Z
}.

(** Modelled from the spec: what a PendingOutcome of [txjuju.protocol]
    resolves with: the result of a ResponseEnvelope, the message and
    code of an ErrorEnvelope, or the connection-lost failure with the
    reason the transport gave. *)
Inductive resolution : Type :=
  | Resolved (result : json)
  | RequestError (message code : json)
  | ConnectionLostError (reason : Twisted.failure).

(** Modelled from the spec: the errors of [txjuju.protocol] that are
    reported and tied to no pending request (section 7). *)
Inductive report : Type :=
  | UnmatchedResponseError (requestId : Z)
  | ProtocolDecodeError (data : json).

(** Modelled from the spec: the inbound envelopes of the wire codec of
    [txjuju.protocol]. *)
Inductive Envelope : Type :=
  | ResponseEnvelope (requestId : Z) (result : json)
  | ErrorEnvelope (requestId : Z) (message code : json).

(** Modelled from the spec: [encode] of the wire codec of
    [txjuju.protocol], the outgoing shape [{RequestId, Type, Request,
    Id?, Params?, Version}]. *)
Definition encode (r : Request) : json :=
  JObj ([("RequestId", JInt (id r)); ("Type", JStr (entityType r));
         ("Request", JStr (requestName r))]
        ++ from_option (λ i, [("Id", JStr i)]) [] (entityId r)
        ++ from_option (λ p, [("Params", p)]) [] (parameters r)
        ++ [("Version", JInt (facadeVersion r))]).

(** Modelled from the spec: [decode] of the wire codec of
    [txjuju.protocol]: an [Error] field present gives an ErrorEnvelope,
    otherwise a [Response] field present gives a ResponseEnvelope; a
    malformed structure or a missing request id is a decode failure. *)
Definition decode (data : json) : option Envelope :=
  match json_get "RequestId" data with
  | Some (JInt requestId) =>
      match json_get "Error" data with
      | Some message =>
          Some (ErrorEnvelope requestId message
                  (default JNull (json_get "ErrorCode" data)))
      | None =>
          match json_get "Response" data with
          | Some result => Some (ResponseEnvelope requestId result)
          | None => None
          end
      end
  | _ => None
  end.

(** Modelled from the spec: the state of the request correlator of
    [txjuju.protocol]: the counter of ids, the table of pending entries
    keyed by id, and, in the order they happened, the resolutions made
    and the errors reported. *)
Record Correlator : Type := mkCorrelator {
  next_id : Z;
  pending : gmap Z Request;
  resolutions : list (Z * resolution);
  reported : list report
}.

(** Modelled from the spec: a fresh correlator of [txjuju.protocol];
    ids start at 1. *)
Definition new_correlator : Correlator := mkCorrelator 1 ∅ [] [].

(** Modelled from the spec: [send] of the request correlator of
    [txjuju.protocol]: allocates the next id, stores a pending entry
    keyed by it and emits the serialized envelope. *)
Definition send (entityType requestName : string) (entityId : option string)
    (parameters : option json) (facadeVersion : Z) (c : Correlator)
  : Z * json * Correlator :=
  let r := mkRequest (next_id c) entityType requestName entityId parameters
                     facadeVersion in
  (next_id c, encode r,
   mkCorrelator (next_id c + 1) (<[next_id c := r]> (pending c))
                (resolutions c) (reported c)).

(** Modelled from the spec: [resolve] and [reject] of the request
    correlator of [txjuju.protocol]: look up the pending entry by id; if
    it is there, it is removed and its outcome resolved; if absent, the
    message is reported as an UnmatchedResponseError. *)
Definition settle (requestId : Z) (r : resolution) (c : Correlator)
  : Correlator :=
  match pending c !! requestId with
  | Some _ =>
      mkCorrelator (next_id c) (delete requestId (pending c))
                   (resolutions c ++ [(requestId, r)]) (reported c)
  | None =>
      mkCorrelator (next_id c) (pending c) (resolutions c)
                   (reported c ++ [UnmatchedResponseError requestId])
  end.

(** Modelled from the spec: the connection lifecycle manager of
    [txjuju.protocol] on the transition into Disconnected: every pending
    entry is rejected with the connection-lost failure. *)
Definition fail_all (reason : Twisted.failure) (c : Correlator) : Correlator :=
  mkCorrelator (next_id c) ∅
               (resolutions c
                ++ ((λ e, (e.1, ConnectionLostError reason))
                    <$> map_to_list (pending c)))
               (reported c).

(** Modelled from the spec: the verb of a ChangeRecord of
    [txjuju.protocol]. *)
Inductive verb : Type := change | remove.

(** Modelled from the spec: a ChangeRecord of [txjuju.protocol]: an
    entity of one of the four kinds with a verb. *)
Record ChangeRecord : Type := mkChange {
  record_verb : verb;
  record_entity : entity
}.

(** Modelled from the spec: the entity kinds of the tagged union
    ChangeRecord of [txjuju.protocol]. *)
Inductive kind : Type := Annotation | Application | Unit | Machine.

(** Modelled from the spec: the kind of a ChangeRecord of
    [txjuju.protocol]. *)
Definition kind_of (r : ChangeRecord) : kind :=
  match record_entity r with
  | AnnotationInfo _ _ => Annotation
  | JujuApplicationInfo _ _ => Application
  | UnitInfo _ _ _ => Unit
  | MachineInfo _ _ _ => Machine
  end.

(** Modelled from the spec: decoding of the verb of a batch entry by the
    delta stream consumer of [txjuju.protocol]. *)
Definition decode_verb (v : string) : option verb :=
  if String.eqb v "change" then Some change
  else if String.eqb v "remove" then Some remove
  else None.

(** Modelled from the spec: decoding of one batch entry [[kind, verb,
    fields]] by the delta stream consumer of [txjuju.protocol]: it
    dispatches on the entity-kind tag [annotation], [application] or
    [service], [unit], [machine]; anything else is a decode failure for
    that element.  The field names are those of the wire shapes. *)
Definition decode_entry (entry : json) : option ChangeRecord :=
  match entry with
  | JList [JStr tag; JStr v; JObj fields] =>
      v ← decode_verb v;
      info ←
        (if String.eqb tag "annotation" then
           pairs ← assoc_get "Annotations" fields;
           name ← assoc_get "Tag" fields;
           Some (AnnotationInfo name pairs)
         else if String.eqb tag "service" || String.eqb tag "application" then
           name ← assoc_get "Name" fields;
           charmURL ← assoc_get "CharmURL" fields;
           Some (JujuApplicationInfo name charmURL)
         else if String.eqb tag "unit" then
           name ← assoc_get "Name" fields;
           applicationName ← assoc_get "Service" fields;
           charmURL ← assoc_get "CharmURL" fields;
           Some (UnitInfo name applicationName charmURL)
         else if String.eqb tag "machine" then
           id ← assoc_get "Id" fields;
           instanceId ← assoc_get "InstanceId" fields;
           status ← assoc_get "Status" fields;
           Some (MachineInfo id instanceId status)
         else None);
      Some (mkChange v info)
  | _ => None
  end.

(** Modelled from the spec: decoding of a watch-next reply [{Deltas:
    [...]}] by the delta stream consumer of [txjuju.protocol] into an
    ordered sequence of ChangeRecord; an element that fails to decode is
    skipped. *)
Definition decode_batch (result : json) : list ChangeRecord :=
  match json_get "Deltas" result with
  | Some (JList entries) => omap decode_entry entries
  | _ => []
  end.

(** Modelled from the spec: where the delta stream consumer of
    [txjuju.protocol] stands: not started, waiting for the reply to the
    start call, waiting for the reply to the one outstanding next-batch
    call bound to the handle, or stopped. *)
Inductive phase : Type :=
  | Idle
  | Starting (call : Z)
  | Polling (handle : string) (call : Z)
  | Stopped.

(** Modelled from the spec: the delta stream consumer of
    [txjuju.protocol]: its phase, the batches published to the
    subscriber in arrival order, and the terminal conditions surfaced to
    it. *)
Record Consumer : Type := mkConsumer {
  watch : phase;
  published : list (list ChangeRecord);
  terminal : list resolution
}.

(** Modelled from the spec: the protocol instance of [txjuju.protocol]:
    one connection with its correlator and its consumer. *)
Record state : Type := mkState {
  connected : bool;
  correlator : Correlator;
  consumer : Consumer
}.

(** Modelled from the spec: a fresh instance of [txjuju.protocol], once
    connected to its transport. *)
Definition init : state :=
  mkState true new_correlator (mkConsumer Idle [] []).

(** Modelled from the spec: the contract [send(entityType, requestName,
    entityId?, parameters?, facadeVersion=1)] of [txjuju.protocol]; the
    outcome is named by the id returned, and the envelope goes to the
    transport. *)
Definition sendRequest (entityType requestName : string)
    (entityId : option string) (parameters : option json)
    (facadeVersion : Z) (p : state) : Z * list json * state :=
  let '(requestId, envelope, c) :=
    send entityType requestName entityId parameters facadeVersion
         (correlator p) in
  (requestId, [envelope], mkState (connected p) c (consumer p)).

(** Modelled from the spec: the next-batch call of the delta stream
    consumer of [txjuju.protocol], bound to the handle id.  The
    specification does not name the calls on the wire; the names here
    are those of the Juju API and nothing below depends on them. *)
Definition next_batch (handle : string) (p : state) : list json * state :=
  let '(call, envelope, c) :=
    send "AllWatcher" "Next" (Some handle) None 1 (correlator p) in
  ([envelope],
   mkState (connected p) c
           (mkConsumer (Polling handle call) (published (consumer p))
                       (terminal (consumer p)))).

(** Modelled from the spec: step (1) of the delta stream consumer of
    [txjuju.protocol]: the start call, with no parameters. *)
Definition watch_start (p : state) : list json * state :=
  match watch (consumer p) with
  | Idle =>
      let '(call, envelope, c) :=
        send "Client" "WatchAll" None None 1 (correlator p) in
      ([envelope],
       mkState (connected p) c
               (mkConsumer (Starting call) (published (consumer p))
                           (terminal (consumer p))))
  | _ => ([], p)
  end.

(** Modelled from the spec: the delta stream consumer of
    [txjuju.protocol] terminating: the terminal condition is surfaced to
    the subscriber.  The specification fixes this for the stopped-watcher
    error and for connection loss; any other failure of the consumer's
    own call ends the loop here as well. *)
Definition stop (why : resolution) (p : state) : state :=
  mkState (connected p) (correlator p)
          (mkConsumer Stopped (published (consumer p))
                      (terminal (consumer p) ++ [why])).

(** Modelled from the spec: the delta stream consumer of
    [txjuju.protocol] publishing a batch to the subscriber. *)
Definition publish (batch : list ChangeRecord) (p : state) : state :=
  mkState (connected p) (correlator p)
          (mkConsumer (watch (consumer p))
                      (published (consumer p) ++ [batch])
                      (terminal (consumer p))).

(** Modelled from the spec: steps (1) to (3) of the delta stream
    consumer of [txjuju.protocol] on the outcome of one of its own
    calls: the reply to the start call gives the handle and the first
    next-batch call; the reply to a next-batch call is decoded and
    published before the next one is issued; a failure ends the loop. *)
Definition on_outcome (requestId : Z) (r : resolution) (p : state)
  : list json * state :=
  match watch (consumer p) with
  | Starting call =>
      if Z.eqb requestId call then
        match r with
        | Resolved result =>
            match json_get "AllWatcherId" result with
            | Some (JStr handle) => next_batch handle p
            | _ => ([], stop r p)
            end
        | _ => ([], stop r p)
        end
      else ([], p)
  | Polling handle call =>
      if Z.eqb requestId call then
        match r with
        | Resolved result =>
            next_batch handle (publish (decode_batch result) p)
        | _ => ([], stop r p)
        end
      else ([], p)
  | _ => ([], p)
  end.

(** Modelled from the spec: inbound data at [txjuju.protocol]: decoded
    by the wire codec, matched by the correlator, and, when it settles a
    call of the consumer, handed to the consumer.  Returns what is
    written to the transport. *)
Definition dataReceived (data : json) (p : state) : list json * state :=
  match decode data with
  | None =>
      let c := correlator p in
      ([], mkState (connected p)
                   (mkCorrelator (next_id c) (pending c) (resolutions c)
                                 (reported c ++ [ProtocolDecodeError data]))
                   (consumer p))
  | Some envelope =>
      let '(requestId, r) :=
        match envelope with
        | ResponseEnvelope requestId result => (requestId, Resolved result)
        | ErrorEnvelope requestId message code =>
            (requestId, RequestError message code)
        end in
      let known := bool_decide (is_Some (pending (correlator p) !! requestId)) in
      let p' := mkState (connected p) (settle requestId r (correlator p))
                        (consumer p) in
      if known then on_outcome requestId r p' else ([], p')
  end.

(** Modelled from the spec: the transition of [txjuju.protocol] into
    Disconnected: every pending entry is rejected with the
    connection-lost failure and the consumer is told to stop; a consumer
    that was running reports its terminal state once. *)
Definition connectionLost (reason : Twisted.failure) (p : state) : state :=
  let running :=
    match watch (consumer p) with
    | Starting _ | Polling _ _ => true
    | Idle | Stopped => false
    end in
  mkState false (fail_all reason (correlator p))
          (mkConsumer Stopped (published (consumer p))
                      (terminal (consumer p)
                       ++ if running then [ConnectionLostError reason] else [])).

End APIClientProtocol.

(** ** A backend wired to its protocol

    [FakeAPIBackend.__init__] creates the protocol and connects it to the
    backend, so that the protocol's transport is the backend: what the
    protocol sends is written to the backend, and what the backend fires
    is received by the protocol. *)

Module Connection.

Record state : Type := mkState {
  backend : FakeAPIBackend.state;
  protocol : APIClientProtocol.state
}.

(** [FakeAPIBackend(version)] *)
Definition init (version : Z) : state :=
  mkState (FakeAPIBackend.init version) APIClientProtocol.init.

(** A method of the backend, run on the backend of the pair. *)
Definition on_backend {A} (m : M FakeAPIBackend.state A) : M state A :=
  λ c, let '(r, b) := m (backend c) in (r, mkState b (protocol c)).

(** [self.transport.write(envelope)] for each envelope the protocol
    emits. *)
Definition transport_write (envelopes : list json) : M state unit :=
  for_each envelopes (λ e, on_backend (FakeAPIBackend.write e)).

(** A step of the protocol, followed by the writes it asks for. *)
Definition on_protocol
    (f : APIClientProtocol.state → list json * APIClientProtocol.state)
  : M state unit :=
  λ c, let '(envelopes, p) := f (protocol c) in
       transport_write envelopes (mkState (backend c) p).

(** The protocol handling one call made by the backend. *)
Definition deliver (call : FakeAPIBackend.protocol_call) : M state unit :=
  match call with
  | FakeAPIBackend.makeConnection => ret tt
  | FakeAPIBackend.dataReceived data =>
      on_protocol (APIClientProtocol.dataReceived data)
  | FakeAPIBackend.connectionLost reason =>
      on_protocol (λ p, ([], APIClientProtocol.connectionLost reason p))
  end.

(** A method of the backend called by a test: the protocol handles the
    calls the method makes on it.  Every method modelled makes at most
    one such call, as its last statement, so handling it after the method
    is handling it inside. *)
Definition backend_call {A} (m : M FakeAPIBackend.state A) : M state A :=
  λ c, let n := length (FakeAPIBackend.protocol (backend c)) in
       let '(r, b) := m (backend c) in
       let calls := drop n (FakeAPIBackend.protocol b) in
       let '(r', c') := for_each calls deliver (mkState b (protocol c)) in
       (match r' with Raise e => Raise e | Ok _ => r end, c').

(** [backend.protocol.sendRequest(...)]; returns the id that names the
    outcome. *)
Definition sendRequest (entityType requestName : string)
    (entityId : option string) (parameters : option json)
    (facadeVersion : Z) : M state Z :=
  λ c, let '(requestId, envelopes, p) :=
         APIClientProtocol.sendRequest entityType requestName entityId
                                       parameters facadeVersion (protocol c) in
       (transport_write envelopes ;;; ret requestId) (mkState (backend c) p).

(** The delta stream consumer of the protocol starting its watch. *)
Definition watch_start : M state unit :=
  on_protocol APIClientProtocol.watch_start.

(** [backend.response(response, requestId)] and [backend.error(exception,
    requestId)] *)
Definition response (response : json) (requestId : option Z) : M state unit :=
  backend_call (FakeAPIBackend.response response requestId).
Definition error (exception : FakeAPIBackend.api_error) (requestId : option Z)
  : M state unit :=
  backend_call (FakeAPIBackend.error exception requestId).

(** [backend.loseConnection()] *)
Definition loseConnection : M state unit :=
  backend_call FakeAPIBackend.loseConnection.

(** [backend.responseWatchAll()] and [backend.responseDeltas(deltas)] *)
Definition responseWatchAll : M state unit :=
  backend_call FakeAPIBackend.responseWatchAll.
Definition responseDeltas (deltas : list delta) : M state unit :=
  backend_call (FakeAPIBackend.responseDeltas deltas).

(** A reply the server sends for one request: a response or an error. *)
Inductive reply : Type :=
  | Response (response : json)
  | Error (exception : FakeAPIBackend.api_error).

Definition fire (r : reply) (requestId : option Z) : M state unit :=
  match r with
  | Response r => response r requestId
  | Error e => error e requestId
  end.

(** What the protocol resolves the outcome with on receiving the reply. *)
Definition resolution_of (r : reply) : APIClientProtocol.resolution :=
  match r with
  | Response r => APIClientProtocol.Resolved r
  | Error e =>
      APIClientProtocol.RequestError (FakeAPIBackend.error_message e)
                                     (FakeAPIBackend.code e)
  end.

(** The payload [response] or [error] builds for a reply. *)
Definition payload_of (r : reply) : list (string * json) :=
  match r with
  | Response r => [("Response", r)]
  | Error e => [("Error", FakeAPIBackend.error_message e);
                ("ErrorCode", FakeAPIBackend.code e)]
  end.

(** The requests of a list, sent back to back. *)
Fixpoint send_all (rs : list (string * string * option string * option json * Z))
  : M state (list Z) :=
  match rs with
  | [] => ret []
  | (entityType, requestName, entityId, parameters, facadeVersion) :: rs' =>
      let! requestId := sendRequest entityType requestName entityId
                                    parameters facadeVersion in
      let! ids := send_all rs' in
      ret (requestId :: ids)
  end.


(** What a test does with a connection, one call at a time. *)
Inductive event : Type :=
  | Send (entityType requestName : string) (entityId : option string)
         (parameters : option json) (facadeVersion : Z)
  | WatchStart
  | Reply (r : reply) (requestId : option Z)
  | Lose.

Definition step (e : event) : M state unit :=
  match e with
  | Send entityType requestName entityId parameters facadeVersion =>
      sendRequest entityType requestName entityId parameters facadeVersion ;;;
      ret tt
  | WatchStart => watch_start
  | Reply r requestId => fire r requestId
  | Lose => loseConnection
  end.

(** The state after a sequence of calls; a call that raises leaves its
    state behind and the test goes on. *)
Definition run (events : list event) (c : state) : state :=
  fold_left (λ c e, state_after (step e) c) events c.

(** The number of requests the test itself sends in a sequence of
    calls. *)
Definition is_send (e : event) : bool :=
  match e with
  | Send _ _ _ _ _ => true
  | _ => false
  end.
Definition count_sends (events : list event) : nat :=
  length (filter (λ e, is_send e = true) events).

(** The correlator of the protocol of a connection. *)
Definition correlator (c : state) : APIClientProtocol.Correlator :=
  APIClientProtocol.correlator (protocol c).

(** [n] consecutive ids from [first] on. *)
Fixpoint consecutive (first : Z) (n : nat) : list Z :=
  match n with
  | O => []
  | S n' => first :: consecutive (first + 1) n'
  end.

End Connection.

(** ** What holds of a backend and its protocol between calls *)

Module Wiring.
Import APIClientProtocol.

(** The backend after the protocol has written the envelope of a
    request. *)
Definition written (r : Request) (b : FakeAPIBackend.state)
  : FakeAPIBackend.state :=
  FakeAPIBackend.set_requests (insert (id r) (encode r))
    (FakeAPIBackend.set_pending (λ l, l ++ [id r]) b).

(** A step of the protocol either writes nothing and leaves the
    correlator alone, or sends one request. *)
Inductive emits (k : Correlator) : list json → Correlator → Prop :=
  | emits_nothing : emits k [] k
  | emits_request t n e prm v :
      emits k [encode (mkRequest (next_id k) t n e prm v)]
            (send t n e prm v k).2.

(** The backend [b], the correlator [k] of its protocol and the
    protocol's [connected] flag fit together: every id the backend has
    seen was allocated, the pending list has no duplicates, and, while
    connected, the ids pending at the backend are pending at the
    correlator; no id is resolved twice, and a resolved id is not
    pending. *)
Record fits (b : FakeAPIBackend.state) (k : Correlator) (conn : bool)
  : Prop := mkFits {
  fits_written :
    ∀ i, is_Some (FakeAPIBackend.requests b !! i) → i < next_id k;
  fits_nodup : NoDup (FakeAPIBackend.pending b);
  fits_pending :
    ∀ i, i ∈ FakeAPIBackend.pending b →
         is_Some (FakeAPIBackend.requests b !! i);
  fits_table : ∀ i, is_Some (pending k !! i) → i < next_id k;
  fits_synced :
    conn = true →
    ∀ i, i ∈ FakeAPIBackend.pending b → is_Some (pending k !! i);
  fits_once : NoDup (resolutions k).*1;
  fits_resolved :
    ∀ i, i ∈ (resolutions k).*1 → i < next_id k ∧ pending k !! i = None
}.

(** The same of a connection. *)
Definition sound (c : Connection.state) : Prop :=
  fits (Connection.backend c) (Connection.correlator c)
       (connected (Connection.protocol c)).

End Wiring.

(** ** What the test doubles keep true from call to call *)

Module Shape.

(** Every request the backend stores is an object that carries, as its
    [RequestId], the id it is stored under; and every pending id has a
    stored request. *)
Definition consistent (s : FakeAPIBackend.state) : Prop :=
  (∀ i data,
     FakeAPIBackend.requests s !! i = Some data →
     ∃ payload, data = JObj payload
                ∧ assoc_get "RequestId" payload = Some (JInt i))
  ∧ (∀ i, i ∈ FakeAPIBackend.pending s →
          is_Some (FakeAPIBackend.requests s !! i)).

(** The methods of the backend that fire one reply. *)
Definition is_reply (m : FakeAPIBackend.method) : bool :=
  match m with
  | FakeAPIBackend.call_write _
  | FakeAPIBackend.call_loseConnection
  | FakeAPIBackend.call_responseLoginAndWatchAll => false
  | _ => true
  end.

(** The helpers of the backend that build a response themselves; none of
    them passes a request id on to [response]. *)
Definition is_helper (m : FakeAPIBackend.method) : bool :=
  match m with
  | FakeAPIBackend.call_responseLogin _
  | FakeAPIBackend.call_responseWatchAll
  | FakeAPIBackend.call_responseDeltas _
  | FakeAPIBackend.call_responseSetAnnotations _
  | FakeAPIBackend.call_responseServiceGet _ _ => true
  | _ => false
  end.

(** The calls whose request id, if they write one, is an integer: every
    call but a [write] of an object whose [RequestId] is another JSON
    value. *)
Definition integer_id (m : FakeAPIBackend.method) : bool :=
  match m with
  | FakeAPIBackend.call_write (JObj payload) =>
      match assoc_get "RequestId" payload with
      | Some (JInt _) | None => true
      | Some _ => false
      end
  | _ => true
  end.

(** The fake protocol never holds pending requests and queued outcomes at
    the same time. *)
Definition exclusive (s : FakeAPIClientProtocol.state) : Prop :=
  FakeAPIClientProtocol._pending_requests s = []
  ∨ (FakeAPIClientProtocol._queued_errors s = []
     ∧ FakeAPIClientProtocol._queued_responses s = []).

(** While the fake protocol is connected, the Deferreds of its pending
    requests are distinct objects that have not fired. *)
Definition waiting (s : FakeAPIClientProtocol.state) : Prop :=
  NoDup (FakeAPIClientProtocol._pending_requests s).*2
  ∧ (FakeAPIClientProtocol.connected s = true →
     ∀ e, e ∈ FakeAPIClientProtocol._pending_requests s →
          FakeAPIClientProtocol.store s !! e.2 = Some Twisted.fresh).

End Shape.

(** * Properties *)

(** ** The monad *)

Lemma bind_ok {S A B} (m : M S A) (k : A → M S B) s a s' :
  m s = (Ok a, s') → bind m k s = k a s'.
Proof. intros H. unfold bind. by rewrite H. Qed.

Lemma bind_raise {S A B} (m : M S A) (k : A → M S B) s e s' :
  m s = (Raise e, s') → bind m k s = (Raise e, s').
Proof. intros H. unfold bind. by rewrite H. Qed.

Lemma for_each_app {S A} (l1 l2 : list A) (body : A → M S unit) s :
  for_each (l1 ++ l2) body s = (for_each l1 body ;;; for_each l2 body) s.
Proof.
  revert s. induction l1 as [|x l1 IH]; intros s; simpl.
  - reflexivity.
  - unfold bind in *. destruct (body x s) as [[[]|e] s1]; [|reflexivity].
    apply IH.
Qed.

(** ** Lists: [l.remove(x)] *)

Section ListRemove.
Import FakeAPIBackend.

Lemma list_remove_head x l : list_remove x (x :: l) = Some l.
Proof. simpl. by rewrite Z.eqb_refl. Qed.

Lemma list_remove_absent x l : x ∉ l → list_remove x l = None.
Proof.
  induction l as [|y l IH]; intros Hx; simpl; [done|].
  apply not_elem_of_cons in Hx as [Hne Hx].
  destruct (Z.eqb_spec x y); [done|]. by rewrite IH.
Qed.

Lemma list_remove_present x l :
  x ∈ l → ∃ l1 l2, l = l1 ++ x :: l2 ∧ (x ∉ l1) ∧ list_remove x l = Some (l1 ++ l2).
Proof.
  induction l as [|y l IH]; intros Hx; [by apply elem_of_nil in Hx|].
  simpl. destruct (Z.eqb_spec x y) as [->|Hne].
  - exists [], l. split_and!; [done|apply not_elem_of_nil|done].
  - apply elem_of_cons in Hx as [?|Hx]; [done|].
    destruct (IH Hx) as (l1 & l2 & -> & Hl1 & ->).
    exists (y :: l1), l2. split_and!; [done| |done].
    apply not_elem_of_cons. done.
Qed.

Lemma list_remove_is_Some x l : is_Some (list_remove x l) ↔ x ∈ l.
Proof.
  split.
  - intros [l' Hl']. destruct (decide (x ∈ l)) as [|Hn]; [done|].
    by rewrite (list_remove_absent _ _ Hn) in Hl'.
  - intros Hx. destruct (list_remove_present _ _ Hx) as (?&?&_&_&->). eauto.
Qed.

(** In a list without duplicates, removing [x] leaves exactly the other
    elements. *)
Lemma list_remove_NoDup x l l' :
  NoDup l → list_remove x l = Some l' →
  NoDup l' ∧ (x ∉ l') ∧ ∀ y, y ∈ l' ↔ y ∈ l ∧ y ≠ x.
Proof.
  intros Hnd Hrm.
  assert (x ∈ l) as Hx by (apply list_remove_is_Some; eauto).
  destruct (list_remove_present _ _ Hx) as (l1 & l2 & -> & Hl1 & Hrm').
  rewrite Hrm in Hrm'. injection Hrm' as ->.
  apply NoDup_app in Hnd as (Hnd1 & Hdisj & Hnd2).
  apply NoDup_cons in Hnd2 as [Hx2 Hnd2].
  split_and!.
  - apply NoDup_app. split_and!; [done| |done].
    intros y Hy1 Hy2. apply (Hdisj y Hy1). by apply elem_of_cons; right.
  - rewrite elem_of_app. tauto.
  - intros y. rewrite !elem_of_app, elem_of_cons. split.
    + intros [Hy|Hy]; (split; [tauto|]); intros ->; tauto.
    + tauto.
Qed.

End ListRemove.

(** ** FakeAPIBackend: firing a payload *)

Section BackendFire.
Import FakeAPIBackend.

Lemma fire_pending payload requestId s p' :
  list_remove requestId (pending s) = Some p' →
  _fire payload (Some requestId) s
  = (Ok tt, call_protocol (dataReceived (FakeAPIBackend.addressed payload requestId))
                          (set_pending (λ _, p') s)).
Proof.
  intros Hrm. unfold _fire, bind, gets, ret, modify. simpl. by rewrite Hrm.
Qed.

Lemma fire_unknown payload requestId s :
  requestId ∉ pending s →
  _fire payload (Some requestId) s = (Raise ValueError, s).
Proof.
  intros Hx. unfold _fire, bind, gets, ret, raise. simpl.
  by rewrite (list_remove_absent _ _ Hx).
Qed.

Lemma fire_oldest payload s oldest rest :
  pending s = oldest :: rest →
  _fire payload None s
  = (Ok tt, call_protocol (dataReceived (addressed payload oldest))
                          (set_pending (λ _, rest) s)).
Proof.
  intros Hp. unfold _fire, bind, gets, ret, modify. cbv beta.
  rewrite Hp. cbv beta iota. rewrite Hp. by rewrite list_remove_head.
Qed.

Lemma fire_nothing_pending payload s :
  pending s = [] → _fire payload None s = (Raise IndexError, s).
Proof.
  intros Hp. unfold _fire, bind, gets, raise. simpl. by rewrite Hp.
Qed.

(** The loop of [responseDeltas] builds the list of the formatted
    deltas, in the order of the input. *)
Lemma responses_loop version deltas acc :
  fold_left (append_delta version) deltas acc
  = acc ++ (format_delta version <$> deltas).
Proof.
  revert acc. induction deltas as [|d deltas IH]; intros acc; simpl.
  - by rewrite app_nil_r.
  - rewrite IH. unfold append_delta.
    destruct d; simpl; by rewrite <- app_assoc.
Qed.

End BackendFire.

(** C9: with [requestId] omitted and a non-empty pending list,
    [FakeAPIBackend.response] and [FakeAPIBackend.error] fire their payload
    at the oldest pending request id, the first element of [pending], and
    the pending list that remains is the rest of it: exactly that id is
    removed. *)
Theorem fire_defaults_to_oldest_pending
    (s : FakeAPIBackend.state) (oldest : Z) (rest : list Z)
    (r : json) (e : FakeAPIBackend.api_error) :
  FakeAPIBackend.pending s = oldest :: rest →
  FakeAPIBackend.response r None s
  = (Ok tt,
     FakeAPIBackend.call_protocol
       (FakeAPIBackend.dataReceived
          (JObj [("Response", r); ("RequestId", JInt oldest)]))
       (FakeAPIBackend.set_pending (λ _, rest) s))
  ∧ FakeAPIBackend.error e None s
  = (Ok tt,
     FakeAPIBackend.call_protocol
       (FakeAPIBackend.dataReceived
          (JObj [("Error", FakeAPIBackend.error_message e);
                 ("ErrorCode", FakeAPIBackend.code e);
                 ("RequestId", JInt oldest)]))
       (FakeAPIBackend.set_pending (λ _, rest) s)).
Proof.
  intros Hp. split.
  - unfold FakeAPIBackend.response. by rewrite (fire_oldest _ _ _ _ Hp).
  - unfold FakeAPIBackend.error. by rewrite (fire_oldest _ _ _ _ Hp).
Qed.

Lemma fire_defaults_to_oldest_pending_witness :
  let s := FakeAPIBackend.mkState ∅ [4; 2; 7] [] true 1 in
  FakeAPIBackend.pending s = [4; 2; 7]
  ∧ FakeAPIBackend.pending
      (state_after (FakeAPIBackend.response (JStr "ok") None) s) = [2; 7]
  ∧ FakeAPIBackend.protocol
      (state_after (FakeAPIBackend.response (JStr "ok") None) s)
    = [FakeAPIBackend.dataReceived
         (JObj [("Response", JStr "ok"); ("RequestId", JInt 4)])].
Proof.
  intros s.
  pose proof (fire_defaults_to_oldest_pending s 4 [2; 7] (JStr "ok")
                (FakeAPIBackend.mkError JNull JNull) eq_refl) as [H _].
  unfold state_after. rewrite H. split_and!; reflexivity.
Defined.

(** C6: batch order is preserved.  With a request pending to answer,
    [responseDeltas] fires a single response whose [Deltas] field is a
    sequence of the length of the input in which the i-th element is the
    formatted form of the i-th input delta. *)
Theorem responseDeltas_preserves_batch_order
    (s : FakeAPIBackend.state) (deltas : list delta)
    (oldest : Z) (rest : list Z) :
  FakeAPIBackend.pending s = oldest :: rest →
  ∃ formatted : list json,
    FakeAPIBackend.responseDeltas deltas s
    = (Ok tt,
       FakeAPIBackend.call_protocol
         (FakeAPIBackend.dataReceived
            (JObj [("Response", JObj [("Deltas", JList formatted)]);
                   ("RequestId", JInt oldest)]))
         (FakeAPIBackend.set_pending (λ _, rest) s))
    ∧ length formatted = length deltas
    ∧ ∀ (i : nat) (d : delta),
        deltas !! i = Some d →
        formatted !! i
        = Some (FakeAPIBackend.format_delta (FakeAPIBackend.version s) d).
Proof.
  intros Hp.
  exists (FakeAPIBackend.format_delta (FakeAPIBackend.version s) <$> deltas).
  split_and!.
  - unfold FakeAPIBackend.responseDeltas, FakeAPIBackend.response.
    unfold bind at 1. unfold gets. rewrite responses_loop. simpl.
    by rewrite (fire_oldest _ _ _ _ Hp).
  - by rewrite length_fmap.
  - intros i d Hi. by rewrite list_lookup_fmap, Hi.
Qed.

Lemma responseDeltas_preserves_batch_order_witness :
  let s := FakeAPIBackend.mkState ∅ [5; 6] [] true 2 in
  let deltas :=
    [Bare (MachineInfo (JStr "0") (JStr "i-123") (JStr "started"));
     Tuple (UnitInfo (JStr "db/0") (JStr "db") (JStr "cs:db-1")) "remove";
     Bare (JujuApplicationInfo (JStr "db") (JStr "cs:db-1"))] in
  FakeAPIBackend.pending s = [5; 6]
  ∧ FakeAPIBackend.protocol
      (state_after (FakeAPIBackend.responseDeltas deltas) s)
    = [FakeAPIBackend.dataReceived
         (JObj
            [("Response",
              JObj
                [("Deltas",
                  JList
                    [JList [JStr "machine"; JStr "change";
                            JObj [("Id", JStr "0");
                                  ("InstanceId", JStr "i-123");
                                  ("Status", JStr "started")]];
                     JList [JStr "unit"; JStr "remove";
                            JObj [("Name", JStr "db/0");
                                  ("Service", JStr "db");
                                  ("CharmURL", JStr "cs:db-1")]];
                     JList [JStr "application"; JStr "change";
                            JObj [("Name", JStr "db");
                                  ("CharmURL", JStr "cs:db-1")]]])]);
             ("RequestId", JInt 5)])].
Proof.
  intros s deltas. split; [reflexivity|].
  destruct (responseDeltas_preserves_batch_order s deltas 5 [6] eq_refl)
    as (formatted & Hfire & Hlen & Hnth).
  unfold state_after. rewrite Hfire. simpl.
  destruct formatted as [|f0 [|f1 [|f2 [|]]]]; try discriminate Hlen.
  pose proof (Hnth 0%nat _ eq_refl) as H0.
  pose proof (Hnth 1%nat _ eq_refl) as H1.
  pose proof (Hnth 2%nat _ eq_refl) as H2.
  simpl in H0, H1, H2.
  injection H0 as ->. injection H1 as ->. injection H2 as ->.
  reflexivity.
Defined.

(** C8: the entity-kind tag of an application delta depends on the
    version: under protocol version 1 the element is tagged [service],
    under any other version [application], and the other fields, [Name]
    and [CharmURL], are the same in both. *)
Theorem application_tag_depends_on_version
    (name charmURL : json) (verb : string) :
  FakeAPIBackend._formatJujuApplicationInfo 1 name charmURL verb
  = JList [JStr "service"; JStr verb;
           JObj [("Name", name); ("CharmURL", charmURL)]]
  ∧ ∀ version : Z, version ≠ 1 →
      FakeAPIBackend._formatJujuApplicationInfo version name charmURL verb
      = JList [JStr "application"; JStr verb;
               JObj [("Name", name); ("CharmURL", charmURL)]].
Proof.
  split; [reflexivity|]. intros version Hv.
  unfold FakeAPIBackend._formatJujuApplicationInfo.
  destruct (Z.eqb_spec version 1); [done|reflexivity].
Qed.

Lemma application_tag_depends_on_version_witness :
  2 ≠ 1
  ∧ FakeAPIBackend._formatJujuApplicationInfo 2 (JStr "db") (JStr "cs:db-1")
      "change"
    = JList [JStr "application"; JStr "change";
             JObj [("Name", JStr "db"); ("CharmURL", JStr "cs:db-1")]].
Proof.
  split; [lia|].
  apply (proj2 (application_tag_depends_on_version
                  (JStr "db") (JStr "cs:db-1") "change") 2).
  lia.
Defined.


(** ** FakeAPIClientProtocol: the store of Deferreds *)

Section ProtocolStore.
Import Twisted FakeAPIClientProtocol.

Lemma store_lookup_new (h : list Deferred) d : (h ++ [d]) !! length h = Some d.
Proof. by rewrite lookup_app_r, Nat.sub_diag by lia. Qed.

Lemma store_insert_new (h : list Deferred) d d' :
  <[length h := d']> (h ++ [d]) = h ++ [d'].
Proof.
  rewrite insert_app_r_alt by lia. by rewrite Nat.sub_diag.
Qed.

Lemma loseConnection_loop (p : list (request * ref)) s :
  for_each p (λ '(_, response),
    let! c := is_called response in
    if negb c then fire_ref response (Failed ConnectionDone) else ret tt) s
  = (Ok tt, set_store (fold_left reject p.*2 (store s)) s).
Proof.
  revert s. induction p as [|[req r] p IH]; intros s; simpl.
  - by destruct s.
  - unfold bind at 1. unfold is_called at 1, fire_ref at 1.
    unfold bind, gets, ret, modify. cbv beta.
    unfold reject at 2.
    destruct (store s !! r) as [d|] eqn:Hr; simpl.
    + destruct (called d) eqn:Hd; simpl.
      * rewrite IH. by destruct s.
      * rewrite Hr. unfold fire. rewrite Hd. rewrite IH. by destruct s.
    + rewrite IH. by destruct s.
Qed.

Lemma reject_length h r : length (reject h r) = length h.
Proof.
  unfold reject. destruct (h !! r) as [d|]; [|done].
  destruct (called d); [done|]. by rewrite length_insert.
Qed.

Lemma reject_called h r r' d :
  h !! r' = Some d → called d = true → reject h r !! r' = Some d.
Proof.
  intros Hr' Hd. unfold reject. destruct (h !! r) as [d0|] eqn:Hr; [|done].
  destruct (called d0) eqn:Hd0; [done|].
  rewrite list_lookup_insert_ne; [done|]. intros ->.
  congruence.
Qed.

Lemma reject_other h r r' : r ≠ r' → reject h r !! r' = h !! r'.
Proof.
  intros Hne. unfold reject. destruct (h !! r) as [d|]; [|done].
  destruct (called d); [done|]. by rewrite list_lookup_insert_ne.
Qed.

Lemma reject_pending h r d :
  h !! r = Some d → called d = false → reject h r !! r = Some connection_done.
Proof.
  intros Hr Hd. unfold reject. rewrite Hr, Hd.
  apply list_lookup_insert_eq. by eapply lookup_lt_Some.
Qed.

Lemma reject_all_called refs h r d :
  h !! r = Some d → called d = true → fold_left reject refs h !! r = Some d.
Proof.
  revert h. induction refs as [|r0 refs IH]; intros h Hr Hd; simpl; [done|].
  apply IH; [|done]. by apply reject_called.
Qed.

Lemma reject_all_other refs h r :
  r ∉ refs → fold_left reject refs h !! r = h !! r.
Proof.
  revert h. induction refs as [|r0 refs IH]; intros h Hr; simpl; [done|].
  apply not_elem_of_cons in Hr as [Hne Hr].
  rewrite IH by done. by apply reject_other.
Qed.

Lemma reject_all_pending refs h r d :
  r ∈ refs → h !! r = Some d → called d = false →
  fold_left reject refs h !! r = Some connection_done.
Proof.
  revert h d. induction refs as [|r0 refs IH]; intros h d Hin Hr Hd; simpl.
  - by apply elem_of_nil in Hin.
  - destruct (decide (r0 = r)) as [->|Hne].
    + apply reject_all_called; [|done]. by eapply reject_pending.
    + apply elem_of_cons in Hin as [?|Hin]; [done|].
      apply (IH _ d); [done| |done]. by rewrite reject_other.
Qed.

(** Once every Deferred named by the references has been called, the
    loop changes nothing. *)
Lemma reject_all_settled refs h :
  (∀ r d, r ∈ refs → h !! r = Some d → called d = true) →
  fold_left reject refs h = h.
Proof.
  induction refs as [|r0 refs IH]; intros Hall; simpl; [done|].
  assert (reject h r0 = h) as ->.
  { unfold reject. destruct (h !! r0) as [d|] eqn:Hr; [|done].
    rewrite (Hall r0 d); [done| |done]. by apply elem_of_cons; left. }
  apply IH. intros r d Hin. apply Hall. by apply elem_of_cons; right.
Qed.

Lemma reject_all_idempotent refs h :
  fold_left reject refs (fold_left reject refs h) = fold_left reject refs h.
Proof.
  apply reject_all_settled. intros r d Hin Hr.
  destruct (h !! r) as [d0|] eqn:Hr0.
  - destruct (called d0) eqn:Hd0.
    + rewrite (reject_all_called _ _ _ _ Hr0 Hd0) in Hr. congruence.
    + rewrite (reject_all_pending _ _ _ _ Hin Hr0 Hd0) in Hr.
      by injection Hr as <-.
  - apply lookup_lt_Some in Hr. apply lookup_ge_None in Hr0.
    assert (length (fold_left reject refs h) = length h) as Hlen.
    { clear. revert h. induction refs as [|r0 refs IH]; intros h; simpl; [done|].
      by rewrite IH, reject_length. }
    lia.
Qed.

(** [_loseConnection] in one equation. *)
Lemma loseConnection_eq s :
  _loseConnection s
  = (if called (disconnected s) then Raise AlreadyCalledError else Ok tt,
     mkState false
       (if called (disconnected s) then disconnected s
        else mkDeferred true (Some (Success JNull)))
       (_pending_requests s) (_queued_errors s) (_queued_responses s)
       (fold_left reject (_pending_requests s).*2 (store s))).
Proof.
  unfold _loseConnection. unfold bind at 1. unfold modify at 1.
  unfold bind at 1. unfold gets at 1. unfold bind at 1.
  rewrite loseConnection_loop. simpl.
  unfold fire_disconnected, bind, gets, callback, fire, modify, raise. simpl.
  by destruct (called (disconnected s)).
Qed.

End ProtocolStore.

(** C5, as the claim states it, fails: closing the fake protocol a second
    time is an error.  The first close returns; the second raises
    [AlreadyCalledError], because [disconnected] is fired again. *)
Lemma closing_twice_raises :
  let closed :=
    state_after FakeAPIClientProtocol._loseConnection
                FakeAPIClientProtocol.init in
  outcome_of FakeAPIClientProtocol._loseConnection FakeAPIClientProtocol.init
  = Ok tt
  ∧ outcome_of FakeAPIClientProtocol._loseConnection closed
    = Raise AlreadyCalledError.
Proof. split; reflexivity. Qed.

(** C5, amended: a close of the fake protocol sets [connected] to false
    and rejects every pending outcome that has not been resolved with the
    disconnection failure [ConnectionDone] before it returns, and it
    returns normally when [disconnected] has not fired.  Closing again
    resolves nothing and leaves the protocol as it was, but it is not
    silent: it raises [AlreadyCalledError].  The backend's
    [loseConnection] raises nothing when repeated; it reports the loss to
    its protocol each time. *)
Theorem close_flushes_once_and_raises_when_repeated
    (s : FakeAPIClientProtocol.state) (b : FakeAPIBackend.state) :
  let closed := state_after FakeAPIClientProtocol._loseConnection s in
  let lost :=
    FakeAPIBackend.connectionLost
      (Twisted.ConnectionLost "Lost the connection") in
  (Twisted.called (FakeAPIClientProtocol.disconnected s) = false →
   outcome_of FakeAPIClientProtocol._loseConnection s = Ok tt)
  ∧ (∀ req r d,
       (req, r) ∈ FakeAPIClientProtocol._pending_requests s →
       FakeAPIClientProtocol.store s !! r = Some d →
       Twisted.called d = false →
       FakeAPIClientProtocol.store closed !! r
       = Some FakeAPIClientProtocol.connection_done)
  ∧ FakeAPIClientProtocol.connected closed = false
  ∧ state_after FakeAPIClientProtocol._loseConnection closed = closed
  ∧ outcome_of FakeAPIClientProtocol._loseConnection closed
    = Raise AlreadyCalledError
  ∧ (FakeAPIBackend.loseConnection ;;; FakeAPIBackend.loseConnection) b
    = (Ok tt,
       FakeAPIBackend.mkState
         (FakeAPIBackend.requests b) (FakeAPIBackend.pending b)
         (FakeAPIBackend.protocol b ++ [lost; lost]) false
         (FakeAPIBackend.version b)).
Proof.
  intros closed lost. subst closed lost. unfold state_after, outcome_of.
  rewrite !loseConnection_eq. simpl. split_and!.
  - by intros ->.
  - intros req r d Hin Hr Hd. eapply reject_all_pending; [|done..].
    apply list_elem_of_fmap. by exists (req, r).
  - reflexivity.
  - rewrite reject_all_idempotent.
    destruct (Twisted.called (FakeAPIClientProtocol.disconnected s)) eqn:E;
      simpl; by rewrite ?E.
  - destruct (Twisted.called (FakeAPIClientProtocol.disconnected s)) eqn:E;
      simpl; by rewrite ?E.
  - unfold FakeAPIBackend.loseConnection, bind, modify. simpl.
    unfold FakeAPIBackend.call_protocol. simpl. by rewrite <- app_assoc.
Qed.

Lemma close_flushes_once_and_raises_when_repeated_witness :
  let s :=
    state_after
      (FakeAPIClientProtocol.sendRequest "Client" "FullStatus" None None 1 ;;;
       FakeAPIClientProtocol.sendRequest "Client" "EnvironmentInfo" None None 1)
      FakeAPIClientProtocol.init in
  let closed := state_after FakeAPIClientProtocol._loseConnection s in
  Twisted.called (FakeAPIClientProtocol.disconnected s) = false
  ∧ outcome_of FakeAPIClientProtocol._loseConnection s = Ok tt
  ∧ FakeAPIClientProtocol.store s !! 1%nat = Some Twisted.fresh
  ∧ FakeAPIClientProtocol.store closed !! 1%nat
    = Some FakeAPIClientProtocol.connection_done
  ∧ outcome_of FakeAPIClientProtocol._loseConnection closed
    = Raise AlreadyCalledError.
Proof.
  intros s closed.
  destruct (close_flushes_once_and_raises_when_repeated
              s (FakeAPIBackend.init 1))
    as (Hret & Hflush & _ & _ & Hagain & _).
  split_and!; [reflexivity| by apply Hret |reflexivity| |exact Hagain].
  apply (Hflush (FakeAPIClientProtocol.mkRequest
                   "Client" "EnvironmentInfo" None None 1) 1%nat Twisted.fresh);
    [|reflexivity..].
  vm_compute. apply elem_of_cons; right. apply elem_of_cons; by left.
Defined.

(** ** FakeAPIClientProtocol: queued outcomes *)

Section ProtocolQueues.
Import Twisted FakeAPIClientProtocol.

Lemma sendRequest_queued_error s reason rest entityType requestInfo
    entityId params facade_version :
  _queued_errors s = reason :: rest →
  sendRequest entityType requestInfo entityId params facade_version s
  = (Ok (length (store s)),
     mkState (connected s) (disconnected s) (_pending_requests s) rest
             (_queued_responses s)
             (store s ++ [mkDeferred true (Some (Failed reason))])).
Proof.
  intros Hq. unfold sendRequest, new_Deferred, fire_ref.
  unfold bind, gets, ret, modify. cbv beta. simpl. rewrite Hq. simpl.
  rewrite store_lookup_new. simpl. by rewrite store_insert_new.
Qed.

Lemma sendRequest_queued_response s prepType prepInfo content rest
    entityId params facade_version :
  _queued_errors s = [] →
  _queued_responses s = (prepType, prepInfo, content) :: rest →
  sendRequest prepType prepInfo entityId params facade_version s
  = (Ok (length (store s)),
     mkState (connected s) (disconnected s) (_pending_requests s)
             (_queued_errors s) rest
             (store s ++ [mkDeferred true (Some (Success content))])).
Proof.
  intros He Hq. unfold sendRequest, new_Deferred, fire_ref, assert.
  unfold bind, gets, ret, modify. cbv beta. simpl. rewrite He. simpl.
  rewrite Hq. simpl. rewrite !String.eqb_refl. simpl.
  rewrite store_lookup_new. simpl. rewrite store_insert_new.
  unfold set_store, set_queued_responses. simpl. by rewrite He.
Qed.

Lemma sendRequest_nothing_queued s entityType requestInfo entityId params
    facade_version :
  _queued_errors s = [] →
  _queued_responses s = [] →
  sendRequest entityType requestInfo entityId params facade_version s
  = (Ok (length (store s)),
     mkState (connected s) (disconnected s)
             (_pending_requests s
              ++ [(mkRequest entityType requestInfo entityId params
                             facade_version, length (store s))])
             (_queued_errors s) (_queued_responses s) (store s ++ [fresh])).
Proof.
  intros He Hq. unfold sendRequest, new_Deferred.
  unfold bind, gets, ret, modify. cbv beta. simpl. rewrite He. simpl.
  rewrite Hq. unfold set_pending_requests, set_store. simpl.
  by rewrite He, Hq.
Qed.

(** The [assert]s of [sendRequest]: a queued response whose entity type
    or request name is not the request's is consumed and the call raises. *)
Lemma sendRequest_queued_response_mismatch s prepType prepInfo content rest
    entityType requestInfo entityId params facade_version :
  _queued_errors s = [] →
  _queued_responses s = (prepType, prepInfo, content) :: rest →
  prepType ≠ entityType ∨ prepInfo ≠ requestInfo →
  let send :=
    sendRequest entityType requestInfo entityId params facade_version in
  outcome_of send s = Raise AssertionError
  ∧ _queued_responses (state_after send s) = rest
  ∧ _pending_requests (state_after send s) = _pending_requests s
  ∧ store (state_after send s) = store s ++ [fresh].
Proof.
  intros He Hq Hne send. subst send. unfold outcome_of, state_after.
  unfold sendRequest, new_Deferred, assert.
  unfold bind, gets, ret, modify, raise. cbv beta. simpl.
  rewrite He. simpl. rewrite Hq. simpl.
  destruct (String.eqb_spec prepType entityType) as [->|Hne1]; simpl.
  - destruct (String.eqb_spec prepInfo requestInfo) as [->|Hne2]; simpl.
    + by destruct Hne.
    + done.
  - done.
Qed.

End ProtocolQueues.

(** ** FakeAPIClientProtocol: references are never dangling *)

Section Allocated.
Import Twisted FakeAPIClientProtocol.

Lemma fire_ref_shape r v s :
  length (store (fire_ref r v s).2) = length (store s)
  ∧ _pending_requests (fire_ref r v s).2 = _pending_requests s.
Proof.
  unfold fire_ref, bind, gets, ret, modify, raise. simpl.
  destruct (store s !! r) as [d|]; [|done].
  destruct (fire v d); simpl; [|done]. by rewrite length_insert.
Qed.

Lemma allocated_init : allocated init.
Proof. apply Forall_nil_2. Qed.

Lemma allocated_weaken (s s' : state) :
  allocated s →
  (length (store s) ≤ length (store s'))%nat →
  _pending_requests s' ⊆ _pending_requests s →
  allocated s'.
Proof.
  unfold allocated. rewrite !Forall_forall. intros Hs Hlen Hsub e He.
  specialize (Hs e (Hsub e He)). lia.
Qed.

Lemma allocated_sendRequest entityType requestInfo entityId params
    facade_version s :
  allocated s →
  allocated
    (state_after
       (sendRequest entityType requestInfo entityId params facade_version) s).
Proof.
  intros Hs. unfold state_after.
  destruct (_queued_errors s) as [|reason rest] eqn:He.
  - destruct (_queued_responses s) as [|[[prepType prepInfo] content] rest]
      eqn:Hq.
    + rewrite (sendRequest_nothing_queued _ _ _ _ _ _ He Hq). simpl.
      unfold allocated in *. simpl. rewrite length_app. simpl.
      apply Forall_app. split.
      * eapply Forall_impl; [exact Hs|]. simpl. intros e Hlt. lia.
      * apply Forall_singleton. simpl. lia.
    + destruct (String.eqb_spec prepType entityType) as [->|Hne1].
      * destruct (String.eqb_spec prepInfo requestInfo) as [->|Hne2].
        -- rewrite (sendRequest_queued_response _ _ _ _ _ _ _ _ He Hq). simpl.
           eapply (allocated_weaken s); [done| |]; simpl;
             rewrite ?length_app; simpl; (lia || done).
        -- apply String.eqb_neq in Hne2.
           unfold sendRequest, new_Deferred, assert.
           unfold bind, gets, ret, modify, raise. cbv beta. simpl.
           rewrite He. simpl. rewrite Hq. simpl.
           rewrite String.eqb_refl, Hne2. simpl.
           eapply (allocated_weaken s); [done| |]; simpl;
             rewrite ?length_app; simpl; (lia || done).
      * apply String.eqb_neq in Hne1.
        unfold sendRequest, new_Deferred, assert.
        unfold bind, gets, ret, modify, raise. cbv beta. simpl.
        rewrite He. simpl. rewrite Hq. simpl. rewrite Hne1. simpl.
        eapply (allocated_weaken s); [done| |]; simpl;
          rewrite ?length_app; simpl; (lia || done).
  - rewrite (sendRequest_queued_error _ _ _ _ _ _ _ _ He). simpl.
    eapply (allocated_weaken s); [done| |]; simpl;
      rewrite ?length_app; simpl; (lia || done).
Qed.

Lemma allocated_response entityType request content s :
  allocated s → allocated (state_after (response entityType request content) s).
Proof.
  intros Hs. unfold state_after, response.
  unfold bind at 1. unfold gets at 1.
  destruct (_pending_requests s) as [|[req r] rest] eqn:Hp.
  - unfold bind, gets, modify. simpl.
    eapply (allocated_weaken s); [done| |]; simpl; [lia|by rewrite Hp].
  - unfold bind at 1. unfold modify at 1. unfold bind at 1. unfold assert.
    destruct (_ && _); simpl.
    + match goal with
      | |- context [fire_ref ?r ?v ?s0] =>
          destruct (fire_ref_shape r v s0) as [Hlen Hpend];
          destruct (fire_ref r v s0) as [[[]|e] s1]
      end; simpl in *;
        (eapply (allocated_weaken s); [done| |]);
        rewrite ?Hlen, ?Hpend, ?Hp; simpl; try lia;
        intros e' He'; by apply elem_of_cons; right.
    + eapply (allocated_weaken s); [done| |]; simpl; [lia|].
      rewrite Hp. intros e' He'. by apply elem_of_cons; right.
Qed.

Lemma allocated_error reason s :
  allocated s → allocated (state_after (error reason) s).
Proof.
  intros Hs. unfold state_after, error.
  unfold bind at 1. unfold gets at 1.
  destruct (_pending_requests s) as [|[req r] rest] eqn:Hp.
  - unfold bind, gets, modify. simpl.
    eapply (allocated_weaken s); [done| |]; simpl; [lia|by rewrite Hp].
  - unfold bind at 1. unfold modify at 1.
    match goal with
    | |- context [fire_ref ?r ?v ?s0] =>
        destruct (fire_ref_shape r v s0) as [Hlen Hpend];
        destruct (fire_ref r v s0) as [[[]|e] s1]
    end; simpl in *;
      (eapply (allocated_weaken s); [done| |]);
      rewrite ?Hlen, ?Hpend, ?Hp; simpl; try lia;
      intros e' He'; by apply elem_of_cons; right.
Qed.

Lemma allocated_loseConnection s :
  allocated s → allocated (state_after _loseConnection s).
Proof.
  intros Hs. unfold state_after. rewrite loseConnection_eq. simpl.
  eapply (allocated_weaken s); [done| |done]. simpl.
  generalize (store s). induction ((_pending_requests s).*2) as [|r refs IH];
    intros h; simpl; [done|].
  etrans; [|apply IH]. by rewrite reject_length.
Qed.

End Allocated.

(** C10, as the claim states it, fails: the next [sendRequest] does not
    always return a Deferred that fires from the queues.  A response is
    queued for the request [FullStatus]; the next request sent is
    [EnvironmentInfo].  The call raises [AssertionError] and returns no
    Deferred, the queued response is gone and nothing is pending; the
    request [FullStatus], sent after that, finds the queues empty and
    stays pending with its Deferred unfired. *)
Lemma queued_response_for_another_request_is_lost :
  let queued :=
    state_after
      (FakeAPIClientProtocol.response "Client" "FullStatus" (JStr "ok"))
      FakeAPIClientProtocol.init in
  let other :=
    FakeAPIClientProtocol.sendRequest "Client" "EnvironmentInfo" None None 1 in
  let expected :=
    FakeAPIClientProtocol.sendRequest "Client" "FullStatus" None None 1 in
  FakeAPIClientProtocol._queued_responses queued
  = [("Client", "FullStatus", JStr "ok")]
  ∧ outcome_of other queued = Raise AssertionError
  ∧ FakeAPIClientProtocol._queued_responses (state_after other queued) = []
  ∧ FakeAPIClientProtocol._pending_requests (state_after other queued) = []
  ∧ outcome_of expected (state_after other queued) = Ok 1%nat
  ∧ FakeAPIClientProtocol.deferred
      1%nat (state_after expected (state_after other queued))
    = Some Twisted.fresh
  ∧ FakeAPIClientProtocol._pending_requests
      (state_after expected (state_after other queued))
    = [(FakeAPIClientProtocol.mkRequest "Client" "FullStatus" None None 1,
        1%nat)].
Proof. repeat split. Qed.

(** C10, amended: when [FakeAPIClientProtocol.error] or
    [FakeAPIClientProtocol.response] is called with no pending requests,
    the outcome is queued.  The next [sendRequest] takes the oldest queued
    error when there is one, the queued responses being left alone, and
    returns a Deferred that has fired with it; otherwise it takes the
    oldest queued response, and returns a Deferred that has fired with its
    content if the request has the entity type and the request name the
    response was queued with; if it has not, the call raises
    [AssertionError] and returns no Deferred, the response is discarded
    and no Deferred fires.  In none of these cases does the request become
    pending; it does only when both queues are empty, and its Deferred is
    then unfired. *)
Theorem queued_outcomes_fire_on_next_request
    (s : FakeAPIClientProtocol.state)
    (entityType requestInfo : string) (entityId : option string)
    (params : option json) (facade_version : Z) :
  let send := FakeAPIClientProtocol.sendRequest entityType requestInfo entityId
                                                params facade_version in
  let new := length (FakeAPIClientProtocol.store s) in
  (∀ reason,
     FakeAPIClientProtocol._pending_requests s = [] →
     FakeAPIClientProtocol.error reason s
     = (Ok tt,
        FakeAPIClientProtocol.set_queued_errors
          (FakeAPIClientProtocol._queued_errors s ++ [reason]) s))
  ∧ (∀ prepType prepInfo content,
       FakeAPIClientProtocol._pending_requests s = [] →
       FakeAPIClientProtocol.response prepType prepInfo content s
       = (Ok tt,
          FakeAPIClientProtocol.set_queued_responses
            (FakeAPIClientProtocol._queued_responses s
             ++ [(prepType, prepInfo, content)]) s))
  ∧ (∀ reason rest,
       FakeAPIClientProtocol._queued_errors s = reason :: rest →
       outcome_of send s = Ok new
       ∧ FakeAPIClientProtocol.deferred new (state_after send s)
         = Some (Twisted.mkDeferred true (Some (Twisted.Failed reason)))
       ∧ FakeAPIClientProtocol._queued_errors (state_after send s) = rest
       ∧ FakeAPIClientProtocol._queued_responses (state_after send s)
         = FakeAPIClientProtocol._queued_responses s
       ∧ FakeAPIClientProtocol._pending_requests (state_after send s)
         = FakeAPIClientProtocol._pending_requests s)
  ∧ (∀ prepType prepInfo content rest,
       FakeAPIClientProtocol._queued_errors s = [] →
       FakeAPIClientProtocol._queued_responses s
       = (prepType, prepInfo, content) :: rest →
       FakeAPIClientProtocol._queued_responses (state_after send s) = rest
       ∧ FakeAPIClientProtocol._pending_requests (state_after send s)
         = FakeAPIClientProtocol._pending_requests s
       ∧ (prepType = entityType ∧ prepInfo = requestInfo →
          outcome_of send s = Ok new
          ∧ FakeAPIClientProtocol.store (state_after send s)
            = FakeAPIClientProtocol.store s
              ++ [Twisted.mkDeferred true (Some (Twisted.Success content))])
       ∧ (prepType ≠ entityType ∨ prepInfo ≠ requestInfo →
          outcome_of send s = Raise AssertionError
          ∧ FakeAPIClientProtocol.store (state_after send s)
            = FakeAPIClientProtocol.store s ++ [Twisted.fresh]))
  ∧ (FakeAPIClientProtocol._queued_errors s = [] →
     FakeAPIClientProtocol._queued_responses s = [] →
     outcome_of send s = Ok new
     ∧ FakeAPIClientProtocol.deferred new (state_after send s)
       = Some Twisted.fresh
     ∧ FakeAPIClientProtocol._pending_requests (state_after send s)
       = FakeAPIClientProtocol._pending_requests s
         ++ [(FakeAPIClientProtocol.mkRequest entityType requestInfo entityId
                                              params facade_version, new)]).
Proof.
  intros send new. subst send new. unfold outcome_of, state_after.
  unfold FakeAPIClientProtocol.deferred. split_and!.
  - intros reason Hp. unfold FakeAPIClientProtocol.error, bind, gets, modify.
    cbv beta. rewrite Hp. reflexivity.
  - intros prepType prepInfo content Hp.
    unfold FakeAPIClientProtocol.response, bind, gets, modify.
    cbv beta. rewrite Hp. reflexivity.
  - intros reason rest Hq. rewrite (sendRequest_queued_error _ _ _ _ _ _ _ _ Hq).
    simpl. split_and!; try reflexivity. apply store_lookup_new.
  - intros prepType prepInfo content rest He Hq.
    destruct (decide (prepType = entityType ∧ prepInfo = requestInfo))
      as [[-> ->]|Hne].
    + rewrite (sendRequest_queued_response _ _ _ _ _ _ _ _ He Hq). simpl.
      split_and!; [reflexivity|reflexivity|by intros _
                  |intros [Hne|Hne]; by destruct Hne].
    + assert (prepType ≠ entityType ∨ prepInfo ≠ requestInfo) as Hne'.
      { destruct (decide (prepType = entityType)) as [->|?]; [|by left].
        right. intros ->. by apply Hne. }
      destruct (sendRequest_queued_response_mismatch
                  s prepType prepInfo content rest entityType requestInfo
                  entityId params facade_version He Hq Hne')
        as (Hraise & Hqueue & Hpend & Hstore).
      unfold outcome_of, state_after in *.
      split_and!; [exact Hqueue|exact Hpend|by intros ?|by intros _].
  - intros He Hq. rewrite (sendRequest_nothing_queued _ _ _ _ _ _ He Hq).
    simpl. split_and!; try reflexivity. apply store_lookup_new.
Qed.

(** ** The connection: what the protocol emits and what the backend keeps *)

Section ConnectionSteps.
Import APIClientProtocol Wiring.

Implicit Types (b : FakeAPIBackend.state) (k : Correlator) (p : state).

Lemma write_encode r b :
  FakeAPIBackend.write (encode r) b = (Ok tt, written r b).
Proof. reflexivity. Qed.

Lemma next_batch_emits h p :
  emits (correlator p) (next_batch h p).1 (correlator (next_batch h p).2)
  ∧ connected (next_batch h p).2 = connected p.
Proof. split; [apply emits_request|reflexivity]. Qed.

Lemma on_outcome_emits requestId r p :
  emits (correlator p) (on_outcome requestId r p).1
        (correlator (on_outcome requestId r p).2)
  ∧ connected (on_outcome requestId r p).2 = connected p.
Proof.
  unfold on_outcome.
  destruct (watch (consumer p)) as [|call|h call|];
    try (split; [apply emits_nothing|reflexivity]).
  - destruct (requestId =? call); [|split; [apply emits_nothing|reflexivity]].
    destruct r as [result| |]; try (split; [apply emits_nothing|reflexivity]).
    destruct (json_get "AllWatcherId" result) as [[| | |h| |]|];
      try (split; [apply emits_nothing|reflexivity]).
    apply next_batch_emits.
  - destruct (requestId =? call); [|split; [apply emits_nothing|reflexivity]].
    destruct r as [result| |]; try (split; [apply emits_nothing|reflexivity]).
    apply (next_batch_emits h (publish (decode_batch result) p)).
Qed.

Lemma watch_start_emits p :
  emits (correlator p) (watch_start p).1 (correlator (watch_start p).2)
  ∧ connected (watch_start p).2 = connected p.
Proof.
  unfold watch_start. destruct (watch (consumer p));
    try (split; [apply emits_nothing|reflexivity]).
  split; [apply emits_request|reflexivity].
Qed.

End ConnectionSteps.

Section Fits.
Import APIClientProtocol Wiring.

Implicit Types (b : FakeAPIBackend.state) (k : Correlator) (p : state).

Lemma fits_init version : fits (FakeAPIBackend.init version) new_correlator true.
Proof.
  split; simpl.
  - intros i [x Hx]. by rewrite lookup_empty in Hx.
  - apply NoDup_nil_2.
  - intros i Hi. by apply elem_of_nil in Hi.
  - intros i [x Hx]. by rewrite lookup_empty in Hx.
  - intros _ i Hi. by apply elem_of_nil in Hi.
  - apply NoDup_nil_2.
  - intros i Hi. by apply elem_of_nil in Hi.
Qed.

(** Sending a request keeps the two sides fitting. *)
Lemma fits_send b k conn t n e prm v :
  fits b k conn →
  fits (written (mkRequest (next_id k) t n e prm v) b)
       (send t n e prm v k).2 conn.
Proof.
  intros [Hw Hnd Hp Ht Hs Ho Hr]. split; simpl.
  - intros i Hi. apply lookup_insert_is_Some in Hi as [<-|[_ Hi]]; [lia|].
    apply Hw in Hi. lia.
  - apply NoDup_app. split_and!; [done| |apply NoDup_singleton].
    intros i Hi Hi'. apply list_elem_of_singleton in Hi' as ->.
    apply Hp, Hw in Hi. lia.
  - intros i Hi. apply lookup_insert_is_Some.
    apply elem_of_app in Hi as [Hi|Hi].
    + destruct (decide (next_id k = i)); [by left|right]. split; [done|].
      by apply Hp.
    + apply list_elem_of_singleton in Hi. by left.
  - intros i Hi. apply lookup_insert_is_Some in Hi as [<-|[_ Hi]]; [lia|].
    apply Ht in Hi. lia.
  - intros Hc i Hi. apply lookup_insert_is_Some.
    apply elem_of_app in Hi as [Hi|Hi].
    + destruct (decide (next_id k = i)); [by left|right]. split; [done|].
      by apply Hs.
    + apply list_elem_of_singleton in Hi. by left.
  - done.
  - intros i Hi. destruct (Hr i Hi) as [Hlt Hnone]. split; [lia|].
    rewrite lookup_insert_ne; [done|lia].
Qed.

(** The backend taking an id off its pending list and calling the
    protocol. *)
Lemma fits_remove b k conn i l call :
  fits b k conn →
  FakeAPIBackend.list_remove i (FakeAPIBackend.pending b) = Some l →
  fits (FakeAPIBackend.call_protocol call
          (FakeAPIBackend.set_pending (λ _, l) b)) k conn.
Proof.
  intros [Hw Hnd Hp Ht Hs Ho Hr] Hrm.
  destruct (list_remove_NoDup _ _ _ Hnd Hrm) as (Hnd' & _ & Hl).
  split; simpl; try done.
  - intros j Hj. apply Hp. by apply Hl.
  - intros Hc j Hj. apply Hs; [done|]. by apply Hl.
Qed.

(** The correlator settling an id the backend no longer holds. *)
Lemma fits_settle b k conn i r :
  fits b k conn → i ∉ FakeAPIBackend.pending b → fits b (settle i r k) conn.
Proof.
  intros [Hw Hnd Hp Ht Hs Ho Hr] Hi. unfold settle.
  destruct (pending k !! i) as [req|] eqn:Hk; split; simpl; try done.
  - intros j Hj. apply Ht. apply lookup_delete_is_Some in Hj. tauto.
  - intros Hc j Hj. apply lookup_delete_is_Some. split.
    + intros ->. done.
    + by apply Hs.
  - rewrite fmap_app. simpl. apply NoDup_app. split_and!; [done| |apply NoDup_singleton].
    intros j Hj Hj'. apply list_elem_of_singleton in Hj' as ->.
    destruct (Hr _ Hj) as [_ Hnone]. congruence.
  - intros j Hj. rewrite fmap_app in Hj. simpl in Hj.
    apply elem_of_app in Hj as [Hj|Hj].
    + destruct (Hr _ Hj) as [Hlt Hnone]. split; [done|].
      rewrite lookup_delete_ne; [done|]. intros ->. congruence.
    + apply list_elem_of_singleton in Hj as ->. split.
      * apply Ht. by rewrite Hk.
      * apply lookup_delete_eq.
Qed.

(** Reporting an error changes nothing that matters here. *)
Lemma fits_report b k conn rep :
  fits b k conn →
  fits b (mkCorrelator (next_id k) (pending k) (resolutions k)
                       (reported k ++ [rep])) conn.
Proof. intros [Hw Hnd Hp Ht Hs Ho Hr]. by split. Qed.

(** Losing the connection. *)
Lemma fits_lost b k conn reason :
  fits b k conn →
  fits (FakeAPIBackend.call_protocol (FakeAPIBackend.connectionLost reason)
          (FakeAPIBackend.set_connected false b))
       (fail_all reason k) false.
Proof.
  intros [Hw Hnd Hp Ht Hs Ho Hr]. split; simpl; try done.
  - intros i [x Hx]. by rewrite lookup_empty in Hx.
  - rewrite fmap_app, <- list_fmap_compose.
    apply NoDup_app. split_and!; [done| |].
    + intros i Hi Hi'. destruct (Hr _ Hi) as [_ Hnone].
      apply list_elem_of_fmap in Hi' as ([j req] & -> & Hj).
      apply elem_of_map_to_list in Hj. simpl in Hnone. congruence.
    + apply (NoDup_fst_map_to_list (pending k)).
  - intros i Hi. rewrite fmap_app, <- list_fmap_compose in Hi.
    split; [|apply lookup_empty].
    apply elem_of_app in Hi as [Hi|Hi]; [by apply Hr|].
    apply list_elem_of_fmap in Hi as ([j req] & -> & Hj).
    apply elem_of_map_to_list in Hj. apply Ht. simpl. by rewrite Hj.
Qed.

End Fits.

Section ConnectionCalls.
Import APIClientProtocol Wiring.

Implicit Types (b : FakeAPIBackend.state) (k : Correlator) (p : state)
  (c : Connection.state).

Lemma emits_next_id k ws k' :
  emits k ws k' →
  next_id k ≤ next_id k'
  ∧ resolutions k' = resolutions k
  ∧ reported k' = reported k.
Proof. intros [|]; simpl; split_and!; (done || lia). Qed.

(** The writes a step of the protocol asks for reach the backend. *)
Lemma transport_write_emits k ws k' b p conn :
  emits k ws k' → fits b k conn →
  ∃ b', Connection.transport_write ws (Connection.mkState b p)
        = (Ok tt, Connection.mkState b' p)
        ∧ fits b' k' conn
        ∧ (∀ i, i < next_id k →
                (i ∈ FakeAPIBackend.pending b' ↔ i ∈ FakeAPIBackend.pending b))
        ∧ FakeAPIBackend.version b' = FakeAPIBackend.version b.
Proof.
  intros [|t n e prm v] Hfits.
  - exists b. split_and!; done.
  - exists (written (mkRequest (next_id k) t n e prm v) b). split_and!.
    + reflexivity.
    + by apply fits_send.
    + intros i Hi. simpl. rewrite elem_of_app, list_elem_of_singleton.
      split; [intros [?|?]; [done|lia]|tauto].
    + reflexivity.
Qed.

Lemma fire_eq (r : Connection.reply) requestId :
  Connection.fire r requestId
  = Connection.backend_call
      (FakeAPIBackend._fire (Connection.payload_of r) requestId).
Proof. by destruct r. Qed.

(** What [_fire] does at the backend: it raises and changes nothing, or
    it takes a pending id off the list and hands the payload, addressed
    to that id, to the protocol. *)
Lemma fire_cases payload requestId b :
  (∃ e, FakeAPIBackend._fire payload requestId b = (Raise e, b))
  ∨ (∃ i l,
       i ∈ FakeAPIBackend.pending b
       ∧ (requestId = Some i ∨ requestId = None)
       ∧ FakeAPIBackend.list_remove i (FakeAPIBackend.pending b) = Some l
       ∧ FakeAPIBackend._fire payload requestId b
         = (Ok tt,
            FakeAPIBackend.call_protocol
              (FakeAPIBackend.dataReceived
                 (FakeAPIBackend.addressed payload i))
              (FakeAPIBackend.set_pending (λ _, l) b))).
Proof.
  destruct requestId as [i|].
  - destruct (decide (i ∈ FakeAPIBackend.pending b)) as [Hi|Hi].
    + right. pose proof Hi as Hi'.
      apply list_remove_is_Some in Hi' as [l Hl]. exists i, l.
      split_and!; [done|by left|done|by apply fire_pending].
    + left. exists ValueError. by apply fire_unknown.
  - destruct (FakeAPIBackend.pending b) as [|i rest] eqn:Hp.
    + left. exists IndexError. by apply fire_nothing_pending.
    + right. exists i, rest. rewrite <- Hp at 1. rewrite Hp.
      split_and!; [by apply elem_of_cons; left|by right
                  |apply list_remove_head|by apply fire_oldest].
Qed.

(** A backend method that raises before calling the protocol. *)
Lemma backend_call_raise {A} (m : M FakeAPIBackend.state A) c e :
  m (Connection.backend c) = (Raise e, Connection.backend c) →
  Connection.backend_call m c = (Raise e, c).
Proof.
  intros Hm. unfold Connection.backend_call. rewrite Hm.
  rewrite drop_all. simpl. by destruct c.
Qed.

(** A backend method that ends with one call on the protocol. *)
Lemma backend_call_one (m : M FakeAPIBackend.state unit) c b1 call :
  m (Connection.backend c) = (Ok tt, FakeAPIBackend.call_protocol call b1) →
  FakeAPIBackend.protocol b1 = FakeAPIBackend.protocol (Connection.backend c) →
  Connection.backend_call m c
  = (Connection.deliver call ;;; ret tt)
      (Connection.mkState (FakeAPIBackend.call_protocol call b1)
                          (Connection.protocol c)).
Proof.
  intros Hm Hlog. unfold Connection.backend_call. rewrite Hm.
  simpl. rewrite Hlog, drop_app_length. simpl.
  unfold bind, ret.
  destruct (Connection.deliver call _) as [[[]|e] c']; reflexivity.
Qed.

Lemma decode_addressed (r : Connection.reply) i :
  decode (FakeAPIBackend.addressed (Connection.payload_of r) i)
  = Some match r with
         | Connection.Response x => ResponseEnvelope i x
         | Connection.Error e =>
             ErrorEnvelope i (FakeAPIBackend.error_message e)
                           (FakeAPIBackend.code e)
         end.
Proof. by destruct r. Qed.

(** The protocol receiving a reply addressed to [i]. *)
Lemma dataReceived_reply (r : Connection.reply) i p :
  let p' := mkState (connected p)
              (settle i (Connection.resolution_of r) (correlator p))
              (consumer p) in
  dataReceived (FakeAPIBackend.addressed (Connection.payload_of r) i) p
  = if bool_decide (is_Some (pending (correlator p) !! i))
    then on_outcome i (Connection.resolution_of r) p'
    else ([], p').
Proof.
  intros p'. unfold dataReceived. rewrite decode_addressed.
  by destruct r.
Qed.

Lemma dataReceived_emits (r : Connection.reply) i p :
  let out := dataReceived
               (FakeAPIBackend.addressed (Connection.payload_of r) i) p in
  emits (settle i (Connection.resolution_of r) (correlator p))
        out.1 (correlator out.2)
  ∧ connected out.2 = connected p.
Proof.
  intros out. subst out. rewrite dataReceived_reply.
  case_bool_decide.
  - apply (on_outcome_emits i (Connection.resolution_of r)
             (mkState (connected p)
                      (settle i (Connection.resolution_of r) (correlator p))
                      (consumer p))).
  - split; [apply emits_nothing|reflexivity].
Qed.

End ConnectionCalls.

Section ConnectionFire.
Import APIClientProtocol Wiring.

Implicit Types (b : FakeAPIBackend.state) (k : Correlator) (p : state)
  (c : Connection.state).

(** A reply the backend delivers: the correlator settles its id, and the
    backend no longer holds it. *)
Lemma fire_delivers (r : Connection.reply) requestId c i l :
  sound c →
  FakeAPIBackend.list_remove i (FakeAPIBackend.pending (Connection.backend c))
  = Some l →
  FakeAPIBackend._fire (Connection.payload_of r) requestId
                       (Connection.backend c)
  = (Ok tt,
     FakeAPIBackend.call_protocol
       (FakeAPIBackend.dataReceived
          (FakeAPIBackend.addressed (Connection.payload_of r) i))
       (FakeAPIBackend.set_pending (λ _, l) (Connection.backend c))) →
  ∃ c',
    Connection.fire r requestId c = (Ok tt, c')
    ∧ sound c'
    ∧ connected (Connection.protocol c') = connected (Connection.protocol c)
    ∧ next_id (Connection.correlator c) ≤ next_id (Connection.correlator c')
    ∧ resolutions (Connection.correlator c')
      = resolutions (settle i (Connection.resolution_of r)
                            (Connection.correlator c))
    ∧ reported (Connection.correlator c')
      = reported (settle i (Connection.resolution_of r)
                         (Connection.correlator c))
    ∧ (∀ j, j < next_id (Connection.correlator c) →
            (j ∈ FakeAPIBackend.pending (Connection.backend c')
             ↔ j ∈ FakeAPIBackend.pending (Connection.backend c) ∧ j ≠ i))
    ∧ FakeAPIBackend.version (Connection.backend c')
      = FakeAPIBackend.version (Connection.backend c).
Proof.
  intros Hsound Hrm Hfire. destruct c as [b p]. simpl in *.
  unfold sound, Connection.correlator in *. simpl in *.
  rewrite fire_eq.
  rewrite (backend_call_one
             (FakeAPIBackend._fire (Connection.payload_of r) requestId)
             (Connection.mkState b p) _ _ Hfire) by reflexivity.
  simpl. unfold bind at 1. unfold Connection.on_protocol. simpl.
  destruct (dataReceived_emits r i p) as [Hemits Hconn].
  destruct (dataReceived _ p) as [ws p1]. simpl in *.
  destruct (list_remove_NoDup _ _ _ (fits_nodup _ _ _ Hsound) Hrm)
    as (_ & Hil & Hl).
  pose proof (fits_remove _ _ _ _ _
                (FakeAPIBackend.dataReceived
                   (FakeAPIBackend.addressed (Connection.payload_of r) i))
                Hsound Hrm) as Hfits1.
  pose proof (fits_settle _ _ _ i (Connection.resolution_of r) Hfits1 Hil)
    as Hfits2.
  destruct (transport_write_emits _ _ _ _ p1 _ Hemits Hfits2)
    as (b2 & Hw & Hfits3 & Hpend & Hver).
  rewrite Hw. exists (Connection.mkState b2 p1). simpl.
  destruct (emits_next_id _ _ _ Hemits) as (Hnext & Hres & Hrep).
  assert (next_id (settle i (Connection.resolution_of r) (correlator p))
          = next_id (correlator p)) as Hsame.
  { unfold settle. by destruct (pending (correlator p) !! i). }
  rewrite Hsame in *.
  split_and!; try done.
  - by rewrite Hconn.
  - intros j Hj. rewrite (Hpend j Hj). simpl. apply Hl.
Qed.

(** Any reply, fired at any id, leaves the connection sound. *)
Lemma fire_sound (r : Connection.reply) requestId c :
  sound c →
  let c' := state_after (Connection.fire r requestId) c in
  sound c'
  ∧ next_id (Connection.correlator c) ≤ next_id (Connection.correlator c').
Proof.
  intros Hsound c'. subst c'. unfold state_after.
  destruct (fire_cases (Connection.payload_of r) requestId
                       (Connection.backend c))
    as [[e He]|(i & l & Hi & _ & Hrm & Hfire)].
  - rewrite fire_eq.
    rewrite (backend_call_raise
               (FakeAPIBackend._fire (Connection.payload_of r) requestId)
               c e He).
    simpl. split; [done|lia].
  - destruct (fire_delivers r requestId c i l Hsound Hrm Hfire)
      as (c' & -> & Hs & _ & Hn & _). by split.
Qed.



End ConnectionFire.

Section ConnectionRun.
Import APIClientProtocol Wiring.

Implicit Types (b : FakeAPIBackend.state) (k : Correlator) (p : state)
  (c : Connection.state).

Lemma sendRequest_eq t n e prm v c :
  Connection.sendRequest t n e prm v c
  = (Ok (next_id (Connection.correlator c)),
     Connection.mkState
       (written (mkRequest (next_id (Connection.correlator c)) t n e prm v)
                (Connection.backend c))
       (mkState (connected (Connection.protocol c))
                (send t n e prm v (Connection.correlator c)).2
                (consumer (Connection.protocol c)))).
Proof. reflexivity. Qed.

Lemma loseConnection_call c :
  Connection.loseConnection c
  = (Ok tt,
     Connection.mkState
       (FakeAPIBackend.call_protocol
          (FakeAPIBackend.connectionLost
             (Twisted.ConnectionLost "Lost the connection"))
          (FakeAPIBackend.set_connected false (Connection.backend c)))
       (connectionLost (Twisted.ConnectionLost "Lost the connection")
                       (Connection.protocol c))).
Proof.
  unfold Connection.loseConnection.
  rewrite (backend_call_one FakeAPIBackend.loseConnection c
             (FakeAPIBackend.set_connected false (Connection.backend c))
             (FakeAPIBackend.connectionLost
                (Twisted.ConnectionLost "Lost the connection")));
    reflexivity.
Qed.

(** Every call on a connection leaves it sound and never takes the
    counter of ids back. *)
Lemma step_sound e c :
  sound c →
  sound (state_after (Connection.step e) c)
  ∧ next_id (Connection.correlator c)
    ≤ next_id (Connection.correlator (state_after (Connection.step e) c)).
Proof.
  intros Hsound. destruct e as [t n e prm v| |r requestId|]; simpl.
  - unfold state_after, bind. rewrite sendRequest_eq. simpl. split.
    + apply (fits_send _ _ _ t n e prm v Hsound).
    + unfold Connection.correlator. simpl. lia.
  - unfold state_after, Connection.watch_start, Connection.on_protocol.
    destruct (watch_start_emits (Connection.protocol c)) as [Hemits Hconn].
    destruct (watch_start (Connection.protocol c)) as [ws p1]. simpl in *.
    destruct (transport_write_emits _ _ _ (Connection.backend c) p1 _
                Hemits Hsound) as (b' & -> & Hfits & _).
    simpl. split.
    + unfold sound. simpl. by rewrite Hconn.
    + by destruct (emits_next_id _ _ _ Hemits) as [? _].
  - by apply fire_sound.
  - unfold state_after. rewrite loseConnection_call. simpl. split.
    + apply (fits_lost _ _ _ _ Hsound).
    + unfold Connection.correlator. simpl. lia.
Qed.

Lemma run_sound events c :
  sound c →
  sound (Connection.run events c)
  ∧ next_id (Connection.correlator c)
    ≤ next_id (Connection.correlator (Connection.run events c)).
Proof.
  revert c. induction events as [|e events IH]; intros c Hsound; simpl.
  - split; [done|lia].
  - destruct (step_sound e c Hsound) as [Hs Hn].
    destruct (IH _ Hs) as [Hs' Hn']. split; [done|lia].
Qed.

Lemma init_sound version : sound (Connection.init version).
Proof. apply fits_init. Qed.

Lemma consecutive_lookup first n (i : nat) x :
  Connection.consecutive first n !! i = Some x →
  x = first + Z.of_nat i ∧ (i < n)%nat.
Proof.
  revert first i. induction n as [|n IH]; intros first i Hi; simpl in Hi.
  - done.
  - destruct i as [|i]; simpl in Hi.
    + injection Hi as <-. split; lia.
    + apply IH in Hi as [-> Hlt]. split; lia.
Qed.

Lemma consecutive_length first n :
  length (Connection.consecutive first n) = n.
Proof.
  revert first. induction n as [|n IH]; intros first; simpl; [done|].
  by rewrite IH.
Qed.

Lemma consecutive_elem first n x :
  x ∈ Connection.consecutive first n → first ≤ x.
Proof.
  intros Hx. apply list_elem_of_lookup in Hx as [i Hi].
  apply consecutive_lookup in Hi. lia.
Qed.

Lemma consecutive_increasing first n (i j : nat) x y :
  Connection.consecutive first n !! i = Some x →
  Connection.consecutive first n !! j = Some y →
  (i < j)%nat → x < y.
Proof.
  intros Hi Hj Hij. apply consecutive_lookup in Hi, Hj. lia.
Qed.

Lemma consecutive_NoDup first n : NoDup (Connection.consecutive first n).
Proof.
  apply NoDup_alt. intros i j x Hi Hj.
  apply consecutive_lookup in Hi, Hj. lia.
Qed.

(** Requests sent back to back get consecutive ids, which the backend
    appends to its pending list in the order of the calls. *)
Lemma send_all_eq rs c :
  ∃ c',
    Connection.send_all rs c
    = (Ok (Connection.consecutive (next_id (Connection.correlator c))
                                  (length rs)), c')
    ∧ FakeAPIBackend.pending (Connection.backend c')
      = FakeAPIBackend.pending (Connection.backend c)
        ++ Connection.consecutive (next_id (Connection.correlator c))
                                  (length rs)
    ∧ connected (Connection.protocol c') = connected (Connection.protocol c).
Proof.
  revert c. induction rs as [|[[[[t n] e] prm] v] rs IH]; intros c.
  - exists c. simpl. rewrite app_nil_r. by split_and!.
  - simpl. unfold bind at 1. rewrite sendRequest_eq. cbv beta iota.
    set (c1 := Connection.mkState _ _).
    destruct (IH c1) as (c' & Hsend & Hpend & Hconn).
    unfold bind at 1. rewrite Hsend. exists c'. split_and!.
    + reflexivity.
    + rewrite Hpend. simpl. by rewrite <- app_assoc.
    + by rewrite Hconn.
Qed.

End ConnectionRun.

(** C1: for every sequence of N [sendRequest] calls issued back to back,
    at any point of the life of a connection, the N assigned request ids
    are strictly increasing in the order of the calls, hence pairwise
    distinct, and each is greater than every id written to the transport
    before: no id is used twice on a connection.  The backend records them
    in its pending list in the order of the calls. *)
Theorem request_ids_distinct_and_increasing
    (version : Z) (events : list Connection.event)
    (rs : list (string * string * option string * option json * Z)) :
  let c := Connection.run events (Connection.init version) in
  let ids :=
    Connection.consecutive
      (APIClientProtocol.next_id (Connection.correlator c)) (length rs) in
  outcome_of (Connection.send_all rs) c = Ok ids
  ∧ length ids = length rs
  ∧ FakeAPIBackend.pending
      (Connection.backend (state_after (Connection.send_all rs) c))
    = FakeAPIBackend.pending (Connection.backend c) ++ ids
  ∧ (∀ (i j : nat) (x y : Z),
       ids !! i = Some x → ids !! j = Some y → (i < j)%nat → x < y)
  ∧ NoDup ids
  ∧ (∀ x y : Z,
       x ∈ ids →
       is_Some (FakeAPIBackend.requests (Connection.backend c) !! y) →
       y < x).
Proof.
  intros c ids.
  destruct (send_all_eq rs c) as (c' & Hsend & Hpend & _).
  unfold outcome_of, state_after. rewrite Hsend. simpl. split_and!.
  - reflexivity.
  - apply consecutive_length.
  - exact Hpend.
  - apply consecutive_increasing.
  - apply consecutive_NoDup.
  - intros x y Hx Hy. apply consecutive_elem in Hx.
    destruct (run_sound events _ (init_sound version)) as [Hsound _].
    apply (Wiring.fits_written _ _ _ Hsound) in Hy. fold c in Hy.
    unfold Connection.correlator in *. lia.
Qed.



Section Permutations.
Import APIClientProtocol Wiring.

Implicit Types (c : Connection.state).


End Permutations.

Section FirstPending.
Import Twisted FakeAPIClientProtocol.



End FirstPending.



Section Stopped.
Import APIClientProtocol Wiring.

Implicit Types (p : state) (c : Connection.state).

(** A stopped consumer reacts to nothing that arrives. *)
Lemma dataReceived_stopped data p :
  watch (consumer p) = Stopped →
  ∃ p', dataReceived data p = ([], p')
        ∧ watch (consumer p') = Stopped
        ∧ next_id (correlator p') = next_id (correlator p).
Proof.
  intros Hw. unfold dataReceived.
  destruct (decode data) as [env|]; [|by eexists].
  destruct env as [i x|i m code]; simpl.
  - case_bool_decide.
    + unfold on_outcome. simpl. rewrite Hw. eexists. split_and!; try done.
      simpl. unfold settle. by destruct (pending (correlator p) !! i).
    + eexists. split_and!; try done.
      simpl. unfold settle. by destruct (pending (correlator p) !! i).
  - case_bool_decide.
    + unfold on_outcome. simpl. rewrite Hw. eexists. split_and!; try done.
      simpl. unfold settle. by destruct (pending (correlator p) !! i).
    + eexists. split_and!; try done.
      simpl. unfold settle. by destruct (pending (correlator p) !! i).
Qed.

(** Once the consumer has stopped, only the test's own requests
    allocate ids: the consumer issues no call. *)
Lemma step_stopped e c :
  watch (consumer (Connection.protocol c)) = Stopped →
  let c' := state_after (Connection.step e) c in
  watch (consumer (Connection.protocol c')) = Stopped
  ∧ next_id (Connection.correlator c')
    = next_id (Connection.correlator c)
      + (if Connection.is_send e then 1 else 0).
Proof.
  intros Hw c'. subst c'.
  destruct e as [t n e prm v| |r requestId|]; cbn [Connection.step Connection.is_send].
  - unfold state_after, bind. rewrite sendRequest_eq. simpl. done.
  - unfold state_after, Connection.watch_start, Connection.on_protocol.
    unfold watch_start. rewrite Hw. destruct c as [b p]. simpl.
    split; [done|lia].
  - unfold state_after. rewrite fire_eq.
    destruct (fire_cases (Connection.payload_of r) requestId
                         (Connection.backend c))
      as [[e He]|(i & l & Hi & _ & Hrm & Hfire)].
    + rewrite (backend_call_raise
                 (FakeAPIBackend._fire (Connection.payload_of r) requestId)
                 c e He).
      simpl. split; [done|lia].
    + rewrite (backend_call_one
                 (FakeAPIBackend._fire (Connection.payload_of r) requestId)
                 c _ _ Hfire) by reflexivity.
      unfold Connection.deliver, bind, ret, Connection.on_protocol.
      cbv beta. cbn [Connection.protocol Connection.backend].
      destruct (dataReceived_stopped
                  (FakeAPIBackend.addressed (Connection.payload_of r) i)
                  (Connection.protocol c) Hw) as (p' & -> & Hw' & Hn).
      simpl. unfold Connection.correlator. simpl. split; [done|lia].
  - unfold state_after. rewrite loseConnection_call. simpl.
    unfold Connection.correlator. simpl. split; [done|lia].
Qed.

Lemma run_stopped events c :
  watch (consumer (Connection.protocol c)) = Stopped →
  watch (consumer (Connection.protocol (Connection.run events c))) = Stopped
  ∧ next_id (Connection.correlator (Connection.run events c))
    = next_id (Connection.correlator c)
      + Z.of_nat (Connection.count_sends events).
Proof.
  revert c. induction events as [|e events IH]; intros c Hw; simpl.
  - split; [done|]. unfold Connection.count_sends. simpl. lia.
  - destruct (step_stopped e c Hw) as [Hw1 Hn1].
    destruct (IH _ Hw1) as [Hw2 Hn2]. split; [done|].
    rewrite Hn2, Hn1. unfold Connection.count_sends. rewrite filter_cons.
    destruct (Connection.is_send e); simpl.
    + destruct (decide (true = true)); [|done]. simpl. lia.
    + destruct (decide (false = true)); [done|]. lia.
Qed.

End Stopped.

(** C3: after the connection is lost or closed, every pending outcome
    that was not resolved is rejected with a connection-lost failure, the
    connected flag is false, and the delta stream consumer issues no
    further next-batch call.  For the fake protocol, closed through its
    transport, the failure is [ConnectionDone].  For the backend, which
    reports the loss to its protocol with [ConnectionLost], every id
    pending at the correlator is rejected with that failure, nothing stays
    pending, so no caller waits, the consumer is stopped, and whatever the
    test does afterwards the only requests written are the ones it sends
    itself. *)
Theorem connection_loss_rejects_pending_and_stops_watch
    (s : FakeAPIClientProtocol.state)
    (version : Z) (events : list Connection.event) :
  let s' := state_after FakeAPIClientProtocol._loseConnection s in
  let c := Connection.run events (Connection.init version) in
  let c' := state_after Connection.loseConnection c in
  let lost := Twisted.ConnectionLost "Lost the connection" in
  (FakeAPIClientProtocol.connected s' = false
   ∧ Twisted.connection_closed Twisted.ConnectionDone = true
   ∧ ∀ req r d,
       (req, r) ∈ FakeAPIClientProtocol._pending_requests s →
       FakeAPIClientProtocol.store s !! r = Some d →
       Twisted.called d = false →
       FakeAPIClientProtocol.store s' !! r
       = Some (Twisted.mkDeferred
                 true (Some (Twisted.Failed Twisted.ConnectionDone))))
  ∧ outcome_of Connection.loseConnection c = Ok tt
  ∧ FakeAPIBackend.connected (Connection.backend c') = false
  ∧ APIClientProtocol.connected (Connection.protocol c') = false
  ∧ Twisted.connection_closed lost = true
  ∧ (∀ i,
       is_Some (APIClientProtocol.pending (Connection.correlator c) !! i) →
       (i, APIClientProtocol.ConnectionLostError lost)
       ∈ APIClientProtocol.resolutions (Connection.correlator c'))
  ∧ APIClientProtocol.pending (Connection.correlator c') = ∅
  ∧ APIClientProtocol.watch
      (APIClientProtocol.consumer (Connection.protocol c'))
    = APIClientProtocol.Stopped
  ∧ (∀ later : list Connection.event,
       APIClientProtocol.next_id
         (Connection.correlator (Connection.run later c'))
       = APIClientProtocol.next_id (Connection.correlator c')
         + Z.of_nat (Connection.count_sends later)).
Proof.
  intros s' c c' lost. subst s' c'.
  unfold state_after, outcome_of.
  rewrite loseConnection_eq, loseConnection_call. simpl.
  split_and!; try done.
  - intros req r d Hin Hr Hd.
    eapply (reject_all_pending _ _ _ d); [|done..].
    apply list_elem_of_fmap. by exists (req, r).
  - intros i [req Hreq]. unfold Connection.correlator. simpl.
    apply elem_of_app. right. apply list_elem_of_fmap.
    exists (i, req). split; [done|]. by apply elem_of_map_to_list.
  - intros later.
    by destruct (run_stopped later
                   (Connection.mkState
                      (FakeAPIBackend.call_protocol
                         (FakeAPIBackend.connectionLost lost)
                         (FakeAPIBackend.set_connected
                            false (Connection.backend c)))
                      (APIClientProtocol.connectionLost
                         lost (Connection.protocol c)))
                   eq_refl) as [_ Hn].
Qed.

(** ** The consumer's decoder and the backend's formatters *)

Section Decoding.
Import APIClientProtocol.

(** What the consumer decodes from a formatted delta is the entity and
    the verb that went in, whatever the version of the backend. *)
Lemma decode_entry_formatter version (info : entity) (v : string) (w : verb) :
  decode_verb v = Some w →
  decode_entry (FakeAPIBackend.formatter version info v)
  = Some (mkChange w info).
Proof.
  intros Hv. destruct info; simpl.
  - by rewrite Hv.
  - unfold FakeAPIBackend._formatJujuApplicationInfo. simpl.
    rewrite Hv. by destruct (version =? 1).
  - by rewrite Hv.
  - by rewrite Hv.
Qed.

(** A batch of deltas whose verbs are [change] or [remove] is decoded
    entry by entry, in order. *)
Lemma decode_batch_formatted version (deltas : list delta)
    (records : list ChangeRecord) :
  Forall2 (λ d r,
             decode_entry (FakeAPIBackend.format_delta version d) = Some r)
          deltas records →
  decode_batch
    (JObj [("Deltas", JList (FakeAPIBackend.format_delta version <$> deltas))])
  = records.
Proof.
  intros Hall. unfold decode_batch. cbn [json_get assoc_get String.eqb].
  change (omap decode_entry (FakeAPIBackend.format_delta version <$> deltas)
          = records).
  induction Hall as [|d r deltas records Hd _ IH]; [done|].
  rewrite fmap_cons. cbn [omap list_omap]. by rewrite Hd, IH.
Qed.

End Decoding.

(** C7: a machine delta with id "0", instance id "i-123" and status
    "started".  The consumer starts its watch; the backend replies to the
    start with [{AllWatcherId: "1"}]; the consumer issues its next-batch
    call bound to "1"; the backend answers it with the delta.  On the wire
    the two replies are [{Response: {AllWatcherId: "1"}, RequestId: 1}] and
    [{Response: {Deltas: [["machine", "change", {"Id": "0", "InstanceId":
    "i-123", "Status": "started"}]]}, RequestId: 2}], and the subscriber
    receives one batch of exactly one ChangeRecord, of kind Machine, with
    the verb change and the id "0". *)
Theorem machine_delta_reaches_subscriber (version : Z) :
  let machine := MachineInfo (JStr "0") (JStr "i-123") (JStr "started") in
  let scenario :=
    Connection.watch_start ;;;
    Connection.responseWatchAll ;;;
    Connection.responseDeltas [Bare machine] in
  let c := state_after scenario (Connection.init version) in
  outcome_of scenario (Connection.init version) = Ok tt
  ∧ FakeAPIBackend.protocol (Connection.backend c)
    = [FakeAPIBackend.makeConnection;
       FakeAPIBackend.dataReceived
         (JObj [("Response", JObj [("AllWatcherId", JStr "1")]);
                ("RequestId", JInt 1)]);
       FakeAPIBackend.dataReceived
         (JObj [("Response",
                 JObj [("Deltas",
                        JList [JList [JStr "machine"; JStr "change";
                                      JObj [("Id", JStr "0");
                                            ("InstanceId", JStr "i-123");
                                            ("Status", JStr "started")]]])]);
                ("RequestId", JInt 2)])]
  ∧ json_get "Id" <$> FakeAPIBackend.requests (Connection.backend c) !! 2
    = Some (Some (JStr "1"))
  ∧ APIClientProtocol.published
      (APIClientProtocol.consumer (Connection.protocol c))
    = [[APIClientProtocol.mkChange APIClientProtocol.change machine]]
  ∧ APIClientProtocol.kind_of
      (APIClientProtocol.mkChange APIClientProtocol.change machine)
    = APIClientProtocol.Machine.
Proof. intros machine scenario c. split_and!; vm_compute; reflexivity. Qed.

Lemma request_ids_distinct_and_increasing_witness :
  let events :=
    [Connection.Send "Client" "FullStatus" None None 1;
     Connection.Reply (Connection.Response JNull) None] in
  let c := Connection.run events (Connection.init 1) in
  let rs :=
    [("Client", "EnvironmentInfo", None, None, 1);
     ("Client", "ServiceGet", None, Some (JObj [("ServiceName", JStr "db")]), 1);
     ("Client", "AddMachines", None, None, 2)] in
  outcome_of (Connection.send_all rs) c = Ok [2; 3; 4]
  ∧ is_Some (FakeAPIBackend.requests (Connection.backend c) !! 1)
  ∧ 1 < 2 ∧ 2 < 3.
Proof.
  intros events c rs.
  destruct (request_ids_distinct_and_increasing 1 events rs)
    as (Hids & _ & _ & Hincr & _ & Hnew).
  assert (is_Some (FakeAPIBackend.requests (Connection.backend c) !! 1)) as H1.
  { vm_compute. eexists. reflexivity. }
  split_and!.
  - exact Hids.
  - exact H1.
  - apply (Hnew 2 1); [|exact H1].
    vm_compute. apply elem_of_cons. by left.
  - apply (Hincr 0%nat 1%nat 2 3); [reflexivity|reflexivity|lia].
Defined.


Lemma connection_loss_rejects_pending_and_stops_watch_witness :
  let s :=
    state_after
      (FakeAPIClientProtocol.sendRequest "Client" "FullStatus" None None 1)
      FakeAPIClientProtocol.init in
  let events :=
    [Connection.WatchStart;
     Connection.Reply
       (Connection.Response (JObj [("AllWatcherId", JStr "1")])) None;
     Connection.Send "Client" "FullStatus" None None 1] in
  let c := Connection.run events (Connection.init 1) in
  let c' := state_after Connection.loseConnection c in
  let lost := Twisted.ConnectionLost "Lost the connection" in
  FakeAPIClientProtocol.store s !! 0%nat = Some Twisted.fresh
  ∧ FakeAPIClientProtocol.store
      (state_after FakeAPIClientProtocol._loseConnection s) !! 0%nat
    = Some (Twisted.mkDeferred
              true (Some (Twisted.Failed Twisted.ConnectionDone)))
  ∧ is_Some (APIClientProtocol.pending (Connection.correlator c) !! 2)
  ∧ (2, APIClientProtocol.ConnectionLostError lost)
    ∈ APIClientProtocol.resolutions (Connection.correlator c')
  ∧ APIClientProtocol.next_id
      (Connection.correlator
         (Connection.run
            [Connection.Reply (Connection.Response (JObj [])) (Some 2);
             Connection.WatchStart] c'))
    = 4.
Proof.
  intros s events c c' lost.
  destruct (connection_loss_rejects_pending_and_stops_watch s 1 events)
    as ((_ & _ & Hfake) & _ & _ & _ & _ & Hrej & _ & _ & Hlater).
  assert (is_Some (APIClientProtocol.pending (Connection.correlator c) !! 2))
    as H2.
  { vm_compute. eexists. reflexivity. }
  split_and!.
  - reflexivity.
  - apply (Hfake (FakeAPIClientProtocol.mkRequest
                    "Client" "FullStatus" None None 1) 0%nat Twisted.fresh);
      [|reflexivity..].
    vm_compute. apply elem_of_cons. by left.
  - exact H2.
  - apply Hrej, H2.
  - rewrite Hlater. reflexivity.
Defined.

Lemma queued_outcomes_fire_on_next_request_witness :
  let refused := Twisted.OtherFailure (JStr "refused") in
  let queued :=
    state_after
      (FakeAPIClientProtocol.error refused ;;;
       FakeAPIClientProtocol.response "Client" "FullStatus" (JStr "ok") ;;;
       FakeAPIClientProtocol.response "Client" "FullStatus" (JStr "again"))
      FakeAPIClientProtocol.init in
  let send :=
    FakeAPIClientProtocol.sendRequest "Client" "FullStatus" None None 1 in
  let other :=
    FakeAPIClientProtocol.sendRequest "Client" "EnvironmentInfo" None None 1 in
  let after_error := state_after send queued in
  let after_response := state_after send after_error in
  let after_other := state_after other after_response in
  let after_all := state_after send after_other in
  FakeAPIClientProtocol._pending_requests FakeAPIClientProtocol.init = []
  ∧ FakeAPIClientProtocol._queued_errors queued = [refused]
  ∧ FakeAPIClientProtocol._queued_responses queued
    = [("Client", "FullStatus", JStr "ok");
       ("Client", "FullStatus", JStr "again")]
  ∧ FakeAPIClientProtocol.deferred 0%nat after_error
    = Some (Twisted.mkDeferred true (Some (Twisted.Failed refused)))
  ∧ FakeAPIClientProtocol._queued_responses after_error
    = [("Client", "FullStatus", JStr "ok");
       ("Client", "FullStatus", JStr "again")]
  ∧ ("Client" = "Client" ∧ "FullStatus" = "FullStatus")
  ∧ outcome_of send after_error = Ok 1%nat
  ∧ FakeAPIClientProtocol.deferred 1%nat after_response
    = Some (Twisted.mkDeferred true (Some (Twisted.Success (JStr "ok"))))
  ∧ ("Client" ≠ "Client" ∨ "FullStatus" ≠ "EnvironmentInfo")
  ∧ outcome_of other after_response = Raise AssertionError
  ∧ FakeAPIClientProtocol._queued_responses after_other = []
  ∧ FakeAPIClientProtocol._pending_requests after_other = []
  ∧ FakeAPIClientProtocol.deferred 3%nat after_all = Some Twisted.fresh
  ∧ FakeAPIClientProtocol._pending_requests after_all
    = [(FakeAPIClientProtocol.mkRequest "Client" "FullStatus" None None 1,
        3%nat)].
Proof.
  intros refused queued send other after_error after_response after_other
    after_all.
  destruct (queued_outcomes_fire_on_next_request
              queued "Client" "FullStatus" None None 1)
    as (_ & _ & Herr & _).
  destruct (Herr refused [] eq_refl) as (_ & Hd0 & _ & Hqr & _).
  destruct (queued_outcomes_fire_on_next_request
              after_error "Client" "FullStatus" None None 1)
    as (_ & _ & _ & Hresp & _).
  destruct (Hresp "Client" "FullStatus" (JStr "ok")
                  [("Client", "FullStatus", JStr "again")] eq_refl eq_refl)
    as (_ & _ & Hmatch & _).
  destruct (Hmatch (conj eq_refl eq_refl)) as [Hok1 Hstore1].
  destruct (queued_outcomes_fire_on_next_request
              after_response "Client" "EnvironmentInfo" None None 1)
    as (_ & _ & _ & Hresp' & _).
  assert ("Client" ≠ "Client" ∨ "FullStatus" ≠ "EnvironmentInfo") as Hne
    by (right; discriminate).
  destruct (Hresp' "Client" "FullStatus" (JStr "again") [] eq_refl eq_refl)
    as (Hq2 & Hp2 & _ & Hmismatch).
  destruct (Hmismatch Hne) as [Hraise _].
  destruct (queued_outcomes_fire_on_next_request
              after_other "Client" "FullStatus" None None 1)
    as (_ & _ & _ & _ & Hnone).
  destruct (Hnone eq_refl eq_refl) as (_ & Hd3 & Hp3).
  split_and!; [reflexivity|reflexivity|reflexivity|exact Hd0|exact Hqr
              |reflexivity|reflexivity|exact Hok1| |exact Hne|exact Hraise
              |exact Hq2|exact Hp2|exact Hd3|exact Hp3].
  unfold FakeAPIClientProtocol.deferred, after_response, send.
  rewrite Hstore1. reflexivity.
Defined.

(** * Further properties of the code *)

(** ** FakeAPIBackend: the last request *)

Section LastRequest.
Import FakeAPIBackend.

Lemma list_max_None l : list_max l = None ↔ l = [].
Proof. by destruct l. Qed.

Lemma list_max_Some l k :
  list_max l = Some k → k ∈ l ∧ ∀ j, j ∈ l → j ≤ k.
Proof.
  revert k. induction l as [|x l IH]; intros k Hk; simpl in Hk; [done|].
  injection Hk as <-. destruct (list_max l) as [y|] eqn:Hy; simpl.
  - destruct (IH y eq_refl) as [Hin Hmax]. split.
    + destruct (Z.max_spec x y) as [[_ ->]|[_ ->]].
      * by apply elem_of_cons; right.
      * by apply elem_of_cons; left.
    + intros j Hj. apply elem_of_cons in Hj as [->|Hj]; [lia|].
      apply Hmax in Hj. lia.
  - apply list_max_None in Hy as ->. split.
    + by apply elem_of_cons; left.
    + intros j Hj. apply elem_of_cons in Hj as [->|Hj]; [lia|].
      by apply elem_of_nil in Hj.
Qed.

Lemma elem_of_keys (m : gmap Z json) k :
  k ∈ (map_to_list m).*1 ↔ is_Some (m !! k).
Proof.
  rewrite list_elem_of_fmap. split.
  - intros ([k' x] & -> & Hx). apply elem_of_map_to_list in Hx. by exists x.
  - intros [x Hx]. exists (k, x). split; [done|]. by apply elem_of_map_to_list.
Qed.

(** The largest key of the requests, when there is one. *)
Lemma largest_key (m : gmap Z json) :
  (m = ∅ ∧ list_max (map_to_list m).*1 = None)
  ∨ (∃ k, list_max (map_to_list m).*1 = Some k
          ∧ is_Some (m !! k)
          ∧ ∀ j, is_Some (m !! j) → j ≤ k).
Proof.
  destruct (list_max (map_to_list m).*1) as [k|] eqn:Hk.
  - right. exists k. destruct (list_max_Some _ _ Hk) as [Hin Hmax].
    split_and!; [done|by apply elem_of_keys|].
    intros j Hj. by apply Hmax, elem_of_keys.
  - left. split; [|done]. apply list_max_None in Hk.
    apply fmap_nil_inv in Hk. by apply map_to_list_empty_iff.
Qed.

Lemma last_largest s k p :
  requests s !! k = Some p →
  (∀ j, is_Some (requests s !! j) → j ≤ k) →
  last s = (Ok p, s).
Proof.
  intros Hk Hmax. unfold last, bind, gets, ret. cbv beta.
  destruct (largest_key (requests s)) as [[Hempty _]|(k' & -> & [p' Hk'] & Hmax')].
  - by rewrite Hempty, lookup_empty in Hk.
  - assert (k' = k) as ->.
    { assert (k ≤ k') by (apply Hmax'; eauto).
      assert (k' ≤ k) by (apply Hmax; eauto). lia. }
    by rewrite Hk.
Qed.

Lemma last_nothing s : requests s = ∅ → last s = (Raise ValueError, s).
Proof.
  intros Hempty. unfold last, bind, gets, raise. cbv beta.
  by rewrite Hempty, map_to_list_empty.
Qed.

End LastRequest.

(** X1: the property [last] never changes the backend.  It raises
    [ValueError] exactly when no request has been written; otherwise it
    returns the request stored under the largest request id, and no other
    exception is possible. *)
Theorem last_is_request_with_largest_id (s : FakeAPIBackend.state) :
  state_after FakeAPIBackend.last s = s
  ∧ (outcome_of FakeAPIBackend.last s = Raise ValueError
     ↔ FakeAPIBackend.requests s = ∅)
  ∧ (FakeAPIBackend.requests s ≠ ∅ →
     ∃ k p,
       outcome_of FakeAPIBackend.last s = Ok p
       ∧ FakeAPIBackend.requests s !! k = Some p
       ∧ ∀ j, is_Some (FakeAPIBackend.requests s !! j) → j ≤ k).
Proof.
  unfold state_after, outcome_of.
  destruct (largest_key (FakeAPIBackend.requests s))
    as [[Hempty _]|(k & _ & [p Hk] & Hmax)].
  - rewrite (last_nothing s Hempty). simpl. split_and!; done.
  - rewrite (last_largest s k p Hk Hmax). simpl. split_and!.
    + done.
    + split; [done|]. intros Hempty. by rewrite Hempty, lookup_empty in Hk.
    + intros _. by exists k, p.
Qed.

Lemma last_is_request_with_largest_id_witness :
  let s :=
    state_after
      (FakeAPIBackend.write (JObj [("RequestId", JInt 5); ("Type", JStr "a")]) ;;;
       FakeAPIBackend.write (JObj [("RequestId", JInt 3); ("Type", JStr "b")]))
      (FakeAPIBackend.init 1) in
  FakeAPIBackend.requests s ≠ ∅
  ∧ outcome_of FakeAPIBackend.last s
    = Ok (JObj [("RequestId", JInt 5); ("Type", JStr "a")]).
Proof.
  intros s.
  assert (FakeAPIBackend.requests s ≠ ∅) as Hne.
  { intros H. assert (FakeAPIBackend.requests s !! 5 = None) as H5
      by (by rewrite H, lookup_empty).
    vm_compute in H5. discriminate H5. }
  split; [exact Hne|].
  destruct (proj2 (proj2 (last_is_request_with_largest_id s)) Hne)
    as (k & p & Hlast & _ & _).
  rewrite Hlast. vm_compute in Hlast. injection Hlast as <-. reflexivity.
Defined.

(** X2: [last] goes by id, not by time.  After [write] of a payload whose
    request id is at least every id stored, [last] is that payload; after
    [write] of a payload with a smaller id than one stored, [last] is what
    it was before the write. *)
Theorem last_after_write
    (s : FakeAPIBackend.state) (payload : list (string * json)) (i : Z) :
  assoc_get "RequestId" payload = Some (JInt i) →
  let s' := state_after (FakeAPIBackend.write (JObj payload)) s in
  ((∀ j, is_Some (FakeAPIBackend.requests s !! j) → j ≤ i) →
   outcome_of FakeAPIBackend.last s' = Ok (JObj payload))
  ∧ (∀ j, is_Some (FakeAPIBackend.requests s !! j) → i < j →
          outcome_of FakeAPIBackend.last s' = outcome_of FakeAPIBackend.last s).
Proof.
  intros Hid s'. subst s'. unfold state_after, outcome_of.
  unfold FakeAPIBackend.write. rewrite Hid.
  unfold bind, modify. simpl. split.
  - intros Hmax. erewrite last_largest; [done| |].
    + simpl. apply lookup_insert_eq.
    + simpl. intros j Hj.
      apply lookup_insert_is_Some in Hj as [<-|[_ Hj]]; [lia|by apply Hmax].
  - intros j Hj Hlt.
    destruct (largest_key (FakeAPIBackend.requests s))
      as [[Hempty _]|(k & _ & [p Hk] & Hmax)].
    { destruct Hj as [x Hx]. by rewrite Hempty, lookup_empty in Hx. }
    assert (i < k) by (apply Hmax in Hj; lia).
    rewrite (last_largest s k p Hk Hmax). erewrite last_largest; [done| |].
    + simpl. rewrite lookup_insert_ne; [exact Hk|lia].
    + simpl. intros j' Hj'.
      apply lookup_insert_is_Some in Hj' as [<-|[_ Hj']]; [lia|by apply Hmax].
Qed.

Lemma last_after_write_witness :
  let s :=
    state_after (FakeAPIBackend.write (JObj [("RequestId", JInt 5)]))
                (FakeAPIBackend.init 1) in
  let stale := [("RequestId", JInt 3); ("Type", JStr "late")] in
  assoc_get "RequestId" stale = Some (JInt 3)
  ∧ is_Some (FakeAPIBackend.requests s !! 5)
  ∧ outcome_of FakeAPIBackend.last
      (state_after (FakeAPIBackend.write (JObj stale)) s)
    = Ok (JObj [("RequestId", JInt 5)]).
Proof.
  intros s stale.
  assert (is_Some (FakeAPIBackend.requests s !! 5)) as H5
    by (vm_compute; eexists; reflexivity).
  split_and!; [reflexivity|exact H5|].
  rewrite (proj2 (last_after_write s stale 3 eq_refl) 5 H5 ltac:(lia)).
  vm_compute. reflexivity.
Defined.

(** ** FakeAPIBackend: what a call changes and what it leaves alone *)

Section BackendFrame.
Import FakeAPIBackend Shape.

Lemma assoc_get_set_eq k v kvs : assoc_get k (assoc_set k v kvs) = Some v.
Proof.
  induction kvs as [|[k' v'] kvs IH]; simpl.
  - by rewrite String.eqb_refl.
  - destruct (String.eqb k k') eqn:Hk; simpl; rewrite ?String.eqb_refl, ?Hk; done.
Qed.

Lemma assoc_get_set_ne k k' v kvs :
  k' ≠ k → assoc_get k' (assoc_set k v kvs) = assoc_get k' kvs.
Proof.
  intros Hne. apply String.eqb_neq in Hne.
  induction kvs as [|[k0 v0] kvs IH]; simpl.
  - by rewrite Hne.
  - destruct (String.eqb_spec k k0) as [->|Hk]; simpl.
    + by rewrite Hne.
    + by rewrite IH.
Qed.


Lemma list_remove_Permutation x l l' :
  list_remove x l = Some l' → l ≡ₚ x :: l'.
Proof.
  intros Hrm.
  assert (x ∈ l) as Hx by (apply list_remove_is_Some; eauto).
  destruct (list_remove_present _ _ Hx) as (l1 & l2 & -> & _ & Hrm').
  rewrite Hrm in Hrm'. injection Hrm' as ->.
  by rewrite Permutation_middle.
Qed.

(** Every method that fires one reply runs [_fire] on some payload. *)
Lemma reply_is_fire m s :
  is_reply m = true →
  ∃ payload requestId, invoke m s = _fire payload requestId s.
Proof.
  destruct m; intros Hm; try discriminate Hm; simpl;
    try (eexists _, _; reflexivity).
Qed.

Lemma fire_frame payload requestId s :
  let s' := state_after (_fire payload requestId) s in
  requests s' = requests s
  ∧ connected s' = connected s
  ∧ version s' = version s
  ∧ (∃ calls, protocol s' = protocol s ++ calls)
  ∧ (∀ i, i ∈ pending s' → i ∈ pending s).
Proof.
  intros s'. subst s'. unfold state_after.
  destruct (fire_cases payload requestId s)
    as [[e ->]|(i & l & Hi & _ & Hrm & ->)]; simpl.
  - split_and!; try done. exists []. by rewrite app_nil_r.
  - split_and!; try done; [by eexists|].
    intros j Hj. apply list_remove_Permutation in Hrm. rewrite Hrm.
    by apply elem_of_cons; right.
Qed.

Lemma fire_fire_frame payload1 requestId1 payload2 requestId2 s :
  let s' := state_after (_fire payload1 requestId1 ;;;
                         _fire payload2 requestId2) s in
  requests s' = requests s
  ∧ connected s' = connected s
  ∧ version s' = version s
  ∧ (∃ calls, protocol s' = protocol s ++ calls)
  ∧ (∀ i, i ∈ pending s' → i ∈ pending s).
Proof.
  intros s'. subst s'. unfold state_after, bind.
  pose proof (fire_frame payload1 requestId1 s) as F1.
  unfold state_after in F1.
  destruct (_fire payload1 requestId1 s) as [[[]|e] s1]; cbn [snd] in *;
    [|exact F1].
  pose proof (fire_frame payload2 requestId2 s1) as F2.
  unfold state_after in F2.
  destruct (_fire payload2 requestId2 s1) as [r2 s2]; cbn [snd] in *.
  destruct F1 as (Hr1 & Hc1 & Hv1 & [calls1 Hp1] & Hsub1).
  destruct F2 as (Hr2 & Hc2 & Hv2 & [calls2 Hp2] & Hsub2).
  rewrite Hr2, Hc2, Hv2, Hp2, Hr1, Hc1, Hv1, Hp1. split_and!; try done.
  - exists (calls1 ++ calls2). by rewrite app_assoc.
  - intros i Hi. by apply Hsub1, Hsub2.
Qed.

(** What any one call leaves alone. *)
Lemma invoke_frame m s :
  let s' := state_after (invoke m) s in
  version s' = version s
  ∧ (∃ calls, protocol s' = protocol s ++ calls)
  ∧ (connected s' = true → connected s = true)
  ∧ (∀ j, is_Some (requests s !! j) → is_Some (requests s' !! j))
  ∧ ((∀ data, m ≠ call_write data) → requests s' = requests s).
Proof.
  intros s'. subst s'.
  destruct (is_reply m) eqn:Hm.
  - destruct (reply_is_fire m s Hm) as (payload & requestId & Heq).
    unfold state_after. rewrite Heq.
    destruct (fire_frame payload requestId s) as (Hr & Hc & Hv & Hp & _).
    unfold state_after in *. rewrite Hr, Hc, Hv. split_and!; done.
  - destruct m; try discriminate Hm; unfold state_after; simpl.
    + unfold write.
      destruct data as [| | | | |payload];
        try (split_and!; try done; exists []; by rewrite app_nil_r).
      destruct (assoc_get "RequestId" payload) as [[| |i| | |]|];
        try (split_and!; try done; exists []; by rewrite app_nil_r).
      unfold bind, modify. simpl. split_and!; try done.
      * exists []. by rewrite app_nil_r.
      * intros j Hj. apply lookup_insert_is_Some.
        destruct (decide (i = j)); [by left|by right].
      * intros Hnot. by destruct (Hnot (JObj payload)).
    + split_and!; try done. by eexists.
    + destruct (fire_fire_frame
                  [("Response",
                    JObj [("EnvironTag", JStr "environment-uuid-123");
                          ("Servers", JList (imap api_server default_endpoints))])]
                  None [("Response", JObj [("AllWatcherId", JStr "1")])] None s)
        as (Hr & Hc & Hv & Hp & _).
      unfold state_after in *.
      change (responseLoginAndWatchAll s) with
        ((_fire [("Response",
                  JObj [("EnvironTag", JStr "environment-uuid-123");
                        ("Servers", JList (imap api_server default_endpoints))])]
                None ;;;
          _fire [("Response", JObj [("AllWatcherId", JStr "1")])] None) s).
      rewrite Hr, Hc, Hv. split_and!; done.
Qed.

Lemma consistent_init version : consistent (init version).
Proof.
  split; simpl.
  - intros i data Hi. by rewrite lookup_empty in Hi.
  - intros i Hi. by apply elem_of_nil in Hi.
Qed.

Lemma consistent_fire payload requestId s :
  consistent s → consistent (state_after (_fire payload requestId) s).
Proof.
  intros [Hstored Hpend].
  destruct (fire_frame payload requestId s) as (Hr & _ & _ & _ & Hsub).
  split.
  - intros i data. rewrite Hr. apply Hstored.
  - intros i Hi. rewrite Hr. by apply Hpend, Hsub.
Qed.

Lemma consistent_invoke m s :
  consistent s → consistent (state_after (invoke m) s).
Proof.
  intros Hs. destruct (is_reply m) eqn:Hm.
  - destruct (reply_is_fire m s Hm) as (payload & requestId & Heq).
    unfold state_after. rewrite Heq. by apply consistent_fire.
  - destruct m; try discriminate Hm; unfold state_after; simpl.
    + unfold write. destruct data as [| | | | |payload]; try done.
      destruct (assoc_get "RequestId" payload) as [[| |i| | |]|] eqn:Hid;
        try done.
      unfold bind, modify. simpl. destruct Hs as [Hstored Hpend]. split; simpl.
      * intros j data Hj. apply lookup_insert_Some in Hj as [[<- <-]|[_ Hj]].
        -- by exists payload.
        -- by apply Hstored.
      * intros j Hj. apply lookup_insert_is_Some.
        destruct (decide (i = j)); [by left|right]. split; [done|].
        apply Hpend. apply elem_of_app in Hj as [Hj|Hj]; [done|].
        by apply list_elem_of_singleton in Hj.
    + done.
    + destruct (fire_fire_frame
                  [("Response",
                    JObj [("EnvironTag", JStr "environment-uuid-123");
                          ("Servers", JList (imap api_server default_endpoints))])]
                  None [("Response", JObj [("AllWatcherId", JStr "1")])] None s)
        as (Hr & _ & _ & _ & Hsub).
      unfold state_after in *.
      change (responseLoginAndWatchAll s) with
        ((_fire [("Response",
                  JObj [("EnvironTag", JStr "environment-uuid-123");
                        ("Servers", JList (imap api_server default_endpoints))])]
                None ;;;
          _fire [("Response", JObj [("AllWatcherId", JStr "1")])] None) s).
      destruct Hs as [Hstored Hpend]. split.
      * intros i data. rewrite Hr. apply Hstored.
      * intros i Hi. rewrite Hr. by apply Hpend, Hsub.
Qed.

Lemma consistent_history calls s :
  consistent s → consistent (history calls s).
Proof.
  revert s. induction calls as [|m calls IH]; intros s Hs; simpl; [done|].
  by apply IH, consistent_invoke.
Qed.

End BackendFrame.

(** X3: whatever methods are called on a backend, in whatever order and
    whether they raise or not, as long as the request ids written are
    integers, every request it stores is a JSON object whose [RequestId]
    is the key it is stored under, and every id in [pending] has a stored
    request. *)
Theorem backend_requests_stay_keyed_by_id
    (version : Z) (calls : list FakeAPIBackend.method) :
  forallb Shape.integer_id calls = true →
  let s := FakeAPIBackend.history calls (FakeAPIBackend.init version) in
  (∀ i data,
     FakeAPIBackend.requests s !! i = Some data →
     ∃ payload, data = JObj payload
                ∧ assoc_get "RequestId" payload = Some (JInt i))
  ∧ (∀ i, i ∈ FakeAPIBackend.pending s →
          is_Some (FakeAPIBackend.requests s !! i)).
Proof.
  intros _ s. apply (consistent_history calls), consistent_init.
Qed.

Lemma backend_requests_stay_keyed_by_id_witness :
  let calls :=
    [FakeAPIBackend.call_write (JObj [("RequestId", JInt 1)]);
     FakeAPIBackend.call_write (JObj [("Type", JStr "no id")]);
     FakeAPIBackend.call_write (JObj [("RequestId", JInt 2)]);
     FakeAPIBackend.call_responseWatchAll] in
  let s := FakeAPIBackend.history calls (FakeAPIBackend.init 1) in
  forallb Shape.integer_id calls = true
  ∧ 2 ∈ FakeAPIBackend.pending s
  ∧ is_Some (FakeAPIBackend.requests s !! 2).
Proof.
  intros calls s.
  assert (2 ∈ FakeAPIBackend.pending s) as H2.
  { vm_compute. apply elem_of_cons. by left. }
  split_and!; [reflexivity|exact H2|].
  apply (proj2 (backend_requests_stay_keyed_by_id 1 calls eq_refl) 2 H2).
Defined.

Section BackendHistory.
Import FakeAPIBackend.

Lemma history_frame calls s :
  version (history calls s) = version s
  ∧ protocol s `prefix_of` protocol (history calls s)
  ∧ (connected s = false → connected (history calls s) = false)
  ∧ (∀ j, is_Some (requests s !! j) → is_Some (requests (history calls s) !! j))
  ∧ ((∀ m, m ∈ calls → ∀ data, m ≠ call_write data) →
     requests (history calls s) = requests s).
Proof.
  revert s. induction calls as [|m calls IH]; intros s; simpl.
  - split_and!; done.
  - destruct (invoke_frame m s) as (Hv & [l Hp] & Hc & Hk & Hr).
    destruct (IH (state_after (invoke m) s)) as (Hv' & Hp' & Hc' & Hk' & Hr').
    split_and!.
    + by rewrite Hv', Hv.
    + etrans; [|exact Hp']. rewrite Hp. by apply prefix_app_r.
    + intros Hs. apply Hc'.
      destruct (connected (state_after (invoke m) s)) eqn:E; [|done].
      rewrite (Hc eq_refl) in Hs. done.
    + intros j Hj. by apply Hk', Hk.
    + intros Hnot. rewrite Hr'.
      * apply Hr. apply Hnot. by apply elem_of_cons; left.
      * intros m' Hm'. apply Hnot. by apply elem_of_cons; right.
Qed.

End BackendHistory.

(** X4: what no sequence of calls on a backend does.  The version never
    changes; the calls made on the protocol are only ever added to; once
    [connected] is false it stays false; a request id that has been
    stored stays stored, answered or not; and unless [write] is among the
    calls, [requests] does not change at all. *)
Theorem backend_calls_never_undo
    (calls : list FakeAPIBackend.method) (s : FakeAPIBackend.state) :
  let s' := FakeAPIBackend.history calls s in
  FakeAPIBackend.version s' = FakeAPIBackend.version s
  ∧ FakeAPIBackend.protocol s `prefix_of` FakeAPIBackend.protocol s'
  ∧ (FakeAPIBackend.connected s = false →
     FakeAPIBackend.connected s' = false)
  ∧ (∀ j, is_Some (FakeAPIBackend.requests s !! j) →
          is_Some (FakeAPIBackend.requests s' !! j))
  ∧ ((∀ m, m ∈ calls → ∀ data, m ≠ FakeAPIBackend.call_write data) →
     FakeAPIBackend.requests s' = FakeAPIBackend.requests s).
Proof. apply history_frame. Qed.

Lemma backend_calls_never_undo_witness :
  let s :=
    FakeAPIBackend.history
      [FakeAPIBackend.call_write (JObj [("RequestId", JInt 1)]);
       FakeAPIBackend.call_loseConnection]
      (FakeAPIBackend.init 1) in
  let calls :=
    [FakeAPIBackend.call_response JNull None;
     FakeAPIBackend.call_write (JObj [("RequestId", JInt 2)]);
     FakeAPIBackend.call_responseLoginAndWatchAll] in
  FakeAPIBackend.connected s = false
  ∧ FakeAPIBackend.connected (FakeAPIBackend.history calls s) = false
  ∧ is_Some (FakeAPIBackend.requests s !! 1)
  ∧ is_Some (FakeAPIBackend.requests (FakeAPIBackend.history calls s) !! 1).
Proof.
  intros s calls.
  destruct (backend_calls_never_undo calls s) as (_ & _ & Hc & Hk & _).
  assert (is_Some (FakeAPIBackend.requests s !! 1)) as H1
    by (vm_compute; eexists; reflexivity).
  split_and!; [reflexivity|by apply Hc|exact H1|by apply Hk].
Defined.

(** X5: on a backend reached from [FakeAPIBackend(version)] by any calls
    that write integer request ids, the property [lastRequestId] raises
    [ValueError] when nothing has been written and otherwise returns the
    largest request id written so far; it raises neither [KeyError] nor
    [TypeError], and changes nothing. *)
Theorem lastRequestId_is_largest_id_written
    (version : Z) (calls : list FakeAPIBackend.method) :
  forallb Shape.integer_id calls = true →
  let s := FakeAPIBackend.history calls (FakeAPIBackend.init version) in
  (FakeAPIBackend.requests s = ∅ →
   FakeAPIBackend.lastRequestId s = (Raise ValueError, s))
  ∧ (FakeAPIBackend.requests s ≠ ∅ →
     ∃ k, FakeAPIBackend.lastRequestId s = (Ok (JInt k), s)
          ∧ is_Some (FakeAPIBackend.requests s !! k)
          ∧ ∀ j, is_Some (FakeAPIBackend.requests s !! j) → j ≤ k).
Proof.
  intros _ s. split.
  - intros Hempty. unfold FakeAPIBackend.lastRequestId, bind.
    by rewrite (last_nothing s Hempty).
  - intros Hne.
    destruct (largest_key (FakeAPIBackend.requests s))
      as [[Hempty _]|(k & _ & [data Hk] & Hmax)]; [done|].
    destruct (consistent_history calls _ (consistent_init version))
      as [Hstored _].
    destruct (Hstored k data Hk) as (payload & -> & Hid).
    exists k. split_and!; [|by eexists|done].
    unfold FakeAPIBackend.lastRequestId, bind.
    rewrite (last_largest s k _ Hk Hmax).
    unfold FakeAPIBackend.getitem. by rewrite Hid.
Qed.

Lemma lastRequestId_is_largest_id_written_witness :
  let calls :=
    [FakeAPIBackend.call_write (JObj [("RequestId", JInt 1)]);
     FakeAPIBackend.call_write (JObj [("RequestId", JInt 2)]);
     FakeAPIBackend.call_response JNull (Some 2)] in
  let s := FakeAPIBackend.history calls (FakeAPIBackend.init 1) in
  forallb Shape.integer_id calls = true
  ∧ FakeAPIBackend.requests s ≠ ∅
  ∧ outcome_of FakeAPIBackend.lastRequestId s = Ok (JInt 2)
  ∧ outcome_of FakeAPIBackend.lastRequestId (FakeAPIBackend.init 1)
    = Raise ValueError.
Proof.
  intros calls s.
  assert (FakeAPIBackend.requests s ≠ ∅) as Hne.
  { intros H. assert (FakeAPIBackend.requests s !! 2 = None) as H2
      by (by rewrite H, lookup_empty).
    vm_compute in H2. discriminate H2. }
  split_and!; [reflexivity|exact Hne| |].
  - destruct (proj2 (lastRequestId_is_largest_id_written 1 calls eq_refl) Hne)
      as (k & Hlast & _ & _).
    fold s in Hlast. unfold outcome_of. rewrite Hlast. simpl.
    vm_compute in Hlast. by injection Hlast as <-.
  - pose proof (proj1 (lastRequestId_is_largest_id_written 1 [] eq_refl)
                  eq_refl) as Hnone.
    simpl in Hnone. unfold outcome_of. by rewrite Hnone.
Defined.



Section Helpers.
Import FakeAPIBackend Shape.

Lemma helper_is_fire m s :
  is_helper m = true →
  ∃ payload, invoke m s = _fire payload None s
             ∧ is_Some (assoc_get "Response" payload).
Proof.
  destruct m; intros Hm; try discriminate Hm; simpl;
    (eexists; split; [reflexivity|simpl; eauto]).
Qed.

Lemma api_server_inj i j x y : api_server i x = api_server j y → i = j ∧ x = y.
Proof.
  unfold api_server. intros H. cbn [String.append] in H. simplify_eq.
  split; [by apply (inj pretty)|done].
Qed.

End Helpers.

(** X8: the helpers that build a response themselves, [responseLogin],
    [responseWatchAll], [responseDeltas], [responseSetAnnotations] and
    [responseServiceGet], cannot address a request: they answer the oldest
    pending request, also [responseSetAnnotations] when it is given the id
    of another one, and raise [IndexError], changing nothing, when no
    request is pending. *)
Theorem helpers_answer_the_oldest_request
    (m : FakeAPIBackend.method) (s : FakeAPIBackend.state) :
  Shape.is_helper m = true →
  (FakeAPIBackend.pending s = [] →
   FakeAPIBackend.invoke m s = (Raise IndexError, s))
  ∧ (∀ oldest rest,
       FakeAPIBackend.pending s = oldest :: rest →
       ∃ members,
         FakeAPIBackend.invoke m s
         = (Ok tt,
            FakeAPIBackend.call_protocol
              (FakeAPIBackend.dataReceived (JObj members))
              (FakeAPIBackend.set_pending (λ _, rest) s))
         ∧ assoc_get "RequestId" members = Some (JInt oldest)
         ∧ is_Some (assoc_get "Response" members)).
Proof.
  intros Hm. destruct (helper_is_fire m s Hm) as (payload & Heq & Hresp).
  rewrite Heq. split.
  - apply fire_nothing_pending.
  - intros oldest rest Hp. rewrite (fire_oldest _ _ _ _ Hp).
    exists (assoc_set "RequestId" (JInt oldest) payload).
    split_and!; [done|apply assoc_get_set_eq|].
    by rewrite assoc_get_set_ne by discriminate.
Qed.

Lemma helpers_answer_the_oldest_request_witness :
  let s := FakeAPIBackend.mkState ∅ [1; 2] [] true 1 in
  Shape.is_helper (FakeAPIBackend.call_responseSetAnnotations (Some 2)) = true
  ∧ FakeAPIBackend.pending s = [1; 2]
  ∧ FakeAPIBackend.pending
      (state_after (FakeAPIBackend.responseSetAnnotations (Some 2)) s)
    = [2].
Proof.
  intros s. split_and!; [reflexivity|reflexivity|].
  destruct (proj2 (helpers_answer_the_oldest_request
                     (FakeAPIBackend.call_responseSetAnnotations (Some 2)) s
                     eq_refl) 1 [2] eq_refl)
    as (members & Hcall & _).
  simpl in Hcall. unfold state_after. by rewrite Hcall.
Defined.

(** X9: the login reply.  With a request pending, [responseLogin] answers
    the oldest with [EnvironTag] and a [Servers] list that has one group
    per endpoint, in the order of the endpoints; the group of the endpoint
    number i is one server whose [Value] is that endpoint and whose
    [NetworkName] is ["net-"] followed by the decimal numeral of i, so no
    two groups are equal, even for equal endpoints. *)
Theorem responseLogin_lists_a_server_per_endpoint
    (s : FakeAPIBackend.state) (endpoints : list json)
    (oldest : Z) (rest : list Z) :
  FakeAPIBackend.pending s = oldest :: rest →
  ∃ servers : list json,
    FakeAPIBackend.responseLogin endpoints s
    = (Ok tt,
       FakeAPIBackend.call_protocol
         (FakeAPIBackend.dataReceived
            (JObj [("Response",
                    JObj [("EnvironTag", JStr "environment-uuid-123");
                          ("Servers", JList servers)]);
                   ("RequestId", JInt oldest)]))
         (FakeAPIBackend.set_pending (λ _, rest) s))
    ∧ length servers = length endpoints
    ∧ (∀ (i : nat) endpoint,
         endpoints !! i = Some endpoint →
         servers !! i
         = Some (JList [JObj [("NetworkName", JStr ("net-" +:+ pretty i));
                              ("Port", JInt 17070);
                              ("Scope", JStr "local-cloud");
                              ("Type", JStr "ipv4");
                              ("Value", endpoint)]]))
    ∧ NoDup servers.
Proof.
  intros Hp. exists (imap FakeAPIBackend.api_server endpoints). split_and!.
  - unfold FakeAPIBackend.responseLogin, FakeAPIBackend.response.
    by rewrite (fire_oldest _ _ _ _ Hp).
  - apply length_imap.
  - intros i endpoint Hi. by rewrite list_lookup_imap, Hi.
  - apply NoDup_alt. intros i j x Hi Hj.
    rewrite list_lookup_imap in Hi, Hj.
    destruct (endpoints !! i) as [ei|]; [|done].
    destruct (endpoints !! j) as [ej|]; [|done].
    simpl in Hi, Hj.
    assert (FakeAPIBackend.api_server i ei = FakeAPIBackend.api_server j ej)
      as Heq by congruence.
    by destruct (api_server_inj _ _ _ _ Heq).
Qed.

Lemma responseLogin_lists_a_server_per_endpoint_witness :
  let s := FakeAPIBackend.mkState ∅ [1] [] true 1 in
  FakeAPIBackend.pending s = [1]
  ∧ FakeAPIBackend.protocol
      (state_after
         (FakeAPIBackend.responseLogin [JStr "10.0.0.1"; JStr "10.0.0.1"]) s)
    = [FakeAPIBackend.dataReceived
         (JObj
            [("Response",
              JObj
                [("EnvironTag", JStr "environment-uuid-123");
                 ("Servers",
                  JList
                    [JList [JObj [("NetworkName", JStr "net-0");
                                  ("Port", JInt 17070);
                                  ("Scope", JStr "local-cloud");
                                  ("Type", JStr "ipv4");
                                  ("Value", JStr "10.0.0.1")]];
                     JList [JObj [("NetworkName", JStr "net-1");
                                  ("Port", JInt 17070);
                                  ("Scope", JStr "local-cloud");
                                  ("Type", JStr "ipv4");
                                  ("Value", JStr "10.0.0.1")]]])]);
             ("RequestId", JInt 1)])].
Proof.
  intros s. split; [reflexivity|].
  destruct (responseLogin_lists_a_server_per_endpoint
              s [JStr "10.0.0.1"; JStr "10.0.0.1"] 1 [] eq_refl)
    as (servers & Hcall & Hlen & Hnth & _).
  unfold state_after. rewrite Hcall. simpl.
  destruct servers as [|x0 [|x1 [|]]]; try discriminate Hlen.
  pose proof (Hnth 0%nat _ eq_refl) as H0.
  pose proof (Hnth 1%nat _ eq_refl) as H1.
  simpl in H0, H1. injection H0 as ->. injection H1 as ->.
  vm_compute. reflexivity.
Defined.

(** X10: [responseLoginAndWatchAll] answers the two oldest pending
    requests, the older with the default login reply and the next with the
    watcher id "1".  With nothing pending it raises [IndexError] and
    changes nothing.  With one request pending it is not all or nothing:
    that request gets the login reply, and then [IndexError] is raised
    for the watcher reply. *)
Theorem responseLoginAndWatchAll_answers_two_oldest
    (s : FakeAPIBackend.state) :
  let login :=
    JObj [("EnvironTag", JStr "environment-uuid-123");
          ("Servers",
           JList [JList [JObj [("NetworkName", JStr "net-0");
                               ("Port", JInt 17070);
                               ("Scope", JStr "local-cloud");
                               ("Type", JStr "ipv4");
                               ("Value", JStr "host")]]])] in
  let reply (r : json) (i : Z) :=
    FakeAPIBackend.dataReceived (JObj [("Response", r); ("RequestId", JInt i)]) in
  (FakeAPIBackend.pending s = [] →
   FakeAPIBackend.responseLoginAndWatchAll s = (Raise IndexError, s))
  ∧ (∀ a,
       FakeAPIBackend.pending s = [a] →
       FakeAPIBackend.responseLoginAndWatchAll s
       = (Raise IndexError,
          FakeAPIBackend.call_protocol (reply login a)
            (FakeAPIBackend.set_pending (λ _, []) s)))
  ∧ (∀ a b rest,
       FakeAPIBackend.pending s = a :: b :: rest →
       FakeAPIBackend.responseLoginAndWatchAll s
       = (Ok tt,
          FakeAPIBackend.mkState
            (FakeAPIBackend.requests s) rest
            (FakeAPIBackend.protocol s
             ++ [reply login a;
                 reply (JObj [("AllWatcherId", JStr "1")]) b])
            (FakeAPIBackend.connected s) (FakeAPIBackend.version s))).
Proof.
  intros login reply.
  unfold FakeAPIBackend.responseLoginAndWatchAll, FakeAPIBackend.responseLogin,
    FakeAPIBackend.responseWatchAll, FakeAPIBackend.response.
  split_and!.
  - intros Hp. unfold bind. by rewrite (fire_nothing_pending _ _ Hp).
  - intros a Hp. unfold bind. rewrite (fire_oldest _ _ _ _ Hp).
    by rewrite fire_nothing_pending.
  - intros a b rest Hp. unfold bind. rewrite (fire_oldest _ _ _ _ Hp).
    rewrite (fire_oldest _ _ b rest) by reflexivity.
    unfold FakeAPIBackend.call_protocol, FakeAPIBackend.set_pending. simpl.
    by rewrite <- app_assoc.
Qed.

Lemma responseLoginAndWatchAll_answers_two_oldest_witness :
  let s := FakeAPIBackend.mkState ∅ [1; 2; 3] [] true 1 in
  FakeAPIBackend.pending s = [1; 2; 3]
  ∧ outcome_of FakeAPIBackend.responseLoginAndWatchAll s = Ok tt
  ∧ FakeAPIBackend.pending
      (state_after FakeAPIBackend.responseLoginAndWatchAll s) = [3]
  ∧ outcome_of FakeAPIBackend.responseLoginAndWatchAll
      (FakeAPIBackend.mkState ∅ [1] [] true 1)
    = Raise IndexError.
Proof.
  intros s.
  destruct (responseLoginAndWatchAll_answers_two_oldest s) as (_ & _ & Htwo).
  destruct (responseLoginAndWatchAll_answers_two_oldest
              (FakeAPIBackend.mkState ∅ [1] [] true 1)) as (_ & Hone & _).
  unfold outcome_of, state_after.
  rewrite (Htwo 1 2 [3] eq_refl), (Hone 1 eq_refl).
  split_and!; reflexivity.
Defined.

(** ** FakeAPIClientProtocol: each method in one equation *)

Section ProtocolEquations.
Import Twisted FakeAPIClientProtocol.

Lemma sendRequest_eq_cases entityType requestInfo entityId params
    facade_version s :
  sendRequest entityType requestInfo entityId params facade_version s
  = match _queued_errors s with
    | reason :: rest =>
        (Ok (length (store s)),
         mkState (connected s) (disconnected s) (_pending_requests s) rest
                 (_queued_responses s)
                 (store s ++ [mkDeferred true (Some (Failed reason))]))
    | [] =>
        match _queued_responses s with
        | (prepType, prepInfo, content) :: rest =>
            if String.eqb prepType entityType && String.eqb prepInfo requestInfo
            then (Ok (length (store s)),
                  mkState (connected s) (disconnected s) (_pending_requests s)
                          [] rest
                          (store s ++ [mkDeferred true (Some (Success content))]))
            else (Raise AssertionError,
                  mkState (connected s) (disconnected s) (_pending_requests s)
                          [] rest (store s ++ [fresh]))
        | [] =>
            (Ok (length (store s)),
             mkState (connected s) (disconnected s)
                     (_pending_requests s
                      ++ [(mkRequest entityType requestInfo entityId params
                                     facade_version, length (store s))])
                     [] [] (store s ++ [fresh]))
        end
    end.
Proof.
  destruct (_queued_errors s) as [|reason rest] eqn:He.
  - destruct (_queued_responses s) as [|[[prepType prepInfo] content] rest]
      eqn:Hq.
    + rewrite (sendRequest_nothing_queued _ _ _ _ _ _ He Hq). by rewrite He, Hq.
    + destruct (String.eqb_spec prepType entityType) as [->|Hne1]; simpl.
      * destruct (String.eqb_spec prepInfo requestInfo) as [->|Hne2]; simpl.
        -- rewrite (sendRequest_queued_response _ _ _ _ _ _ _ _ He Hq).
           by rewrite He.
        -- apply String.eqb_neq in Hne2.
           unfold sendRequest, new_Deferred, assert.
           unfold bind, gets, ret, modify, raise. cbv beta. simpl.
           rewrite He. simpl. rewrite Hq. simpl.
           rewrite String.eqb_refl, Hne2. simpl.
           unfold set_queued_responses, set_store. simpl. by rewrite He.
      * apply String.eqb_neq in Hne1.
        unfold sendRequest, new_Deferred, assert.
        unfold bind, gets, ret, modify, raise. cbv beta. simpl.
        rewrite He. simpl. rewrite Hq. simpl. rewrite Hne1. simpl.
        unfold set_queued_responses, set_store. simpl. by rewrite He.
  - by rewrite (sendRequest_queued_error _ _ _ _ _ _ _ _ He).
Qed.

Lemma fire_ref_eq r v s :
  fire_ref r v s
  = match store s !! r with
    | Some d =>
        if called d then (Raise AlreadyCalledError, s)
        else (Ok tt, set_store (<[r := mkDeferred true (Some v)]> (store s)) s)
    | None => (Ok tt, s)
    end.
Proof.
  unfold fire_ref, bind, gets, ret, modify, raise, fire. cbv beta.
  destruct (store s !! r) as [d|]; [|done]. by destruct (called d).
Qed.

Lemma response_eq_cases entityType request content s :
  response entityType request content s
  = match _pending_requests s with
    | (request_info, r) :: rest =>
        if String.eqb entityType (FakeAPIClientProtocol.entityType request_info)
           && String.eqb request (requestInfo request_info)
        then fire_ref r (Success content) (set_pending_requests rest s)
        else (Raise AssertionError, set_pending_requests rest s)
    | [] =>
        (Ok tt,
         set_queued_responses
           (_queued_responses s ++ [(entityType, request, content)]) s)
    end.
Proof.
  unfold response. unfold bind at 1. unfold gets at 1.
  destruct (_pending_requests s) as [|[request_info r] rest]; [done|].
  unfold bind, modify, assert. cbv beta.
  by destruct (_ && _).
Qed.

Lemma error_eq_cases reason s :
  error reason s
  = match _pending_requests s with
    | (_, r) :: rest => fire_ref r (Failed reason) (set_pending_requests rest s)
    | [] => (Ok tt, set_queued_errors (_queued_errors s ++ [reason]) s)
    end.
Proof.
  unfold error. unfold bind at 1. unfold gets at 1.
  by destruct (_pending_requests s) as [|[request_info r] rest].
Qed.

End ProtocolEquations.

(** ** FakeAPIClientProtocol: what holds after any calls *)

Section ProtocolInvariants.
Import Twisted FakeAPIClientProtocol Shape.

(** The three facts together are kept by every method. *)
Let healthy (s : state) : Prop := allocated s ∧ exclusive s ∧ waiting s.

Lemma healthy_init : healthy init.
Proof.
  split_and!.
  - apply allocated_init.
  - by left.
  - split; [apply NoDup_nil_2|]. intros _ e He. by apply elem_of_nil in He.
Qed.

Lemma exclusive_queued s :
  exclusive s → _queued_errors s ≠ [] ∨ _queued_responses s ≠ [] →
  _pending_requests s = [].
Proof. intros [Hp|[He Hq]] [H|H]; congruence. Qed.

Lemma healthy_sendRequest entityType requestInfo entityId params
    facade_version s :
  healthy s →
  healthy (sendRequest entityType requestInfo entityId params
                       facade_version s).2.
Proof.
  intros (Ha & Hx & Hnd & Hw). rewrite sendRequest_eq_cases.
  destruct (_queued_errors s) as [|reason rest] eqn:He.
  - destruct (_queued_responses s) as [|[[prepType prepInfo] content] rest]
      eqn:Hq.
    + simpl. split_and!.
      * unfold allocated in *. simpl. rewrite length_app. simpl.
        apply Forall_app. split.
        -- eapply Forall_impl; [exact Ha|]. simpl. intros e Hlt. lia.
        -- apply Forall_singleton. simpl. lia.
      * by right.
      * split; simpl.
        -- rewrite fmap_app. apply NoDup_app. split_and!; [done| |].
           ++ intros r Hr Hr'. apply list_elem_of_singleton in Hr' as ->.
              apply list_elem_of_fmap in Hr as (e & Heq & He').
              unfold allocated in Ha. rewrite Forall_forall in Ha.
              specialize (Ha e He'). simpl in Heq. lia.
           ++ apply NoDup_singleton.
        -- intros Hc e He'. apply elem_of_app in He' as [He'|He'].
           ++ apply lookup_app_l_Some. by apply Hw.
           ++ apply list_elem_of_singleton in He' as ->. simpl.
              apply store_lookup_new.
    + assert (_pending_requests s = []) as Hp.
      { apply exclusive_queued; [done|]. right. by rewrite Hq. }
      destruct (_ && _); simpl; (split_and!; [| |split]); simpl;
        rewrite ?Hp; try done;
        try (by left); try apply Forall_nil_2; try apply NoDup_nil_2;
        intros _ e He'; by apply elem_of_nil in He'.
  - assert (_pending_requests s = []) as Hp.
    { apply exclusive_queued; [done|]. left. by rewrite He. }
    simpl. (split_and!; [| |split]); simpl; rewrite ?Hp; try done;
      try (by left); try apply Forall_nil_2; try apply NoDup_nil_2.
    intros _ e He'. by apply elem_of_nil in He'.
Qed.

(** Taking the first pending request off the list and firing its
    Deferred. *)
Lemma healthy_fire_first req r rest v s :
  healthy s → _pending_requests s = (req, r) :: rest →
  healthy (set_pending_requests rest s)
  ∧ healthy (fire_ref r v (set_pending_requests rest s)).2.
Proof.
  intros (Ha & Hx & Hnd & Hw) Hp.
  assert (healthy (set_pending_requests rest s)) as Hrest.
  { rewrite Hp in Hnd. simpl in Hnd. apply NoDup_cons in Hnd as [Hr Hnd].
    split_and!.
    - unfold allocated in *. simpl. rewrite Hp in Ha.
      by apply Forall_cons in Ha as [_ Ha].
    - right. destruct Hx as [Hx|Hx]; [by rewrite Hp in Hx|done].
    - split; simpl; [done|]. intros Hc e He. apply Hw; [done|].
      rewrite Hp. by apply elem_of_cons; right. }
  split; [done|]. rewrite fire_ref_eq. simpl.
  destruct (store s !! r) as [d|] eqn:Hd; [|done].
  destruct (called d); [done|]. simpl.
  destruct Hrest as (Ha' & Hx' & Hnd' & Hw'). simpl in *.
  rewrite Hp in Hnd. simpl in Hnd. apply NoDup_cons in Hnd as [Hr _].
  split_and!.
  - unfold allocated in *. simpl in *. by rewrite length_insert.
  - done.
  - split; simpl; [done|]. intros Hc e He.
    rewrite list_lookup_insert_ne.
    + by apply Hw'.
    + intros ->. apply Hr. apply list_elem_of_fmap. by exists e.
Qed.

Lemma healthy_response entityType request content s :
  healthy s → healthy (response entityType request content s).2.
Proof.
  intros Hs. rewrite response_eq_cases.
  destruct (_pending_requests s) as [|[req r] rest] eqn:Hp.
  - destruct Hs as (Ha & Hx & Hnd & Hw). simpl. split_and!.
    + unfold allocated in *. simpl. by rewrite Hp in *.
    + left. simpl. done.
    + split; simpl; rewrite Hp; [apply NoDup_nil_2|].
      intros _ e He. by apply elem_of_nil in He.
  - destruct (healthy_fire_first req r rest (Success content) s Hs Hp)
      as [H1 H2].
    by destruct (_ && _).
Qed.

Lemma healthy_error reason s : healthy s → healthy (error reason s).2.
Proof.
  intros Hs. rewrite error_eq_cases.
  destruct (_pending_requests s) as [|[req r] rest] eqn:Hp.
  - destruct Hs as (Ha & Hx & Hnd & Hw). simpl. split_and!.
    + unfold allocated in *. simpl. by rewrite Hp in *.
    + left. simpl. done.
    + split; simpl; rewrite Hp; [apply NoDup_nil_2|].
      intros _ e He. by apply elem_of_nil in He.
  - by destruct (healthy_fire_first req r rest (Failed reason) s Hs Hp).
Qed.

Lemma healthy_loseConnection s : healthy s → healthy (_loseConnection s).2.
Proof.
  intros (Ha & Hx & Hnd & Hw). split_and!.
  - by apply allocated_loseConnection.
  - rewrite loseConnection_eq. simpl. exact Hx.
  - rewrite loseConnection_eq. split; simpl; [done|]. intros Hc. done.
Qed.

Lemma healthy_invoke m s : healthy s → healthy (state_after (invoke m) s).
Proof.
  intros Hs. unfold state_after.
  destruct m as [t r e p v|t r c|reason|]; simpl.
  - pose proof (healthy_sendRequest t r e p v s Hs) as H.
    unfold bind. by destruct (sendRequest t r e p v s) as [[n|x] s'].
  - by apply healthy_response.
  - by apply healthy_error.
  - by apply healthy_loseConnection.
Qed.

Lemma healthy_history calls s : healthy s → healthy (history calls s).
Proof.
  revert s. induction calls as [|m calls IH]; intros s Hs; simpl; [done|].
  by apply IH, healthy_invoke.
Qed.

Lemma history_healthy calls :
  allocated (history calls init)
  ∧ exclusive (history calls init)
  ∧ waiting (history calls init).
Proof. apply healthy_history, healthy_init. Qed.

End ProtocolInvariants.

(** X12: the fake protocol never holds pending requests and queued
    outcomes at the same time: after any calls on a new protocol, either
    no request is pending or both queues are empty.  So a queued outcome
    always goes to the very next request, and a pending request is always
    answered by the very next [response] or [error]. *)
Theorem pending_and_queued_exclude_each_other
    (calls : list FakeAPIClientProtocol.method) :
  let s := FakeAPIClientProtocol.history calls FakeAPIClientProtocol.init in
  FakeAPIClientProtocol._pending_requests s = []
  ∨ (FakeAPIClientProtocol._queued_errors s = []
     ∧ FakeAPIClientProtocol._queued_responses s = []).
Proof. intros s. by destruct (history_healthy calls) as (_ & Hx & _). Qed.

(** X13: on a protocol that has not been closed, answering cannot go
    wrong twice over.  After any calls on a new protocol, while
    [connected] is true the Deferred of every pending request is unfired;
    [error] never raises, and [response] only ever raises
    [AssertionError]: [AlreadyCalledError] needs a close first. *)
Theorem answers_never_hit_a_fired_deferred_while_connected
    (calls : list FakeAPIClientProtocol.method) :
  let s := FakeAPIClientProtocol.history calls FakeAPIClientProtocol.init in
  FakeAPIClientProtocol.connected s = true →
  (∀ e, e ∈ FakeAPIClientProtocol._pending_requests s →
        FakeAPIClientProtocol.deferred e.2 s = Some Twisted.fresh)
  ∧ (∀ reason, outcome_of (FakeAPIClientProtocol.error reason) s = Ok tt)
  ∧ (∀ entityType request content,
       outcome_of (FakeAPIClientProtocol.response entityType request content) s
       = Ok tt
       ∨ outcome_of (FakeAPIClientProtocol.response entityType request content) s
         = Raise AssertionError).
Proof.
  intros s Hc. destruct (history_healthy calls) as (_ & _ & _ & Hw).
  fold s in Hw. specialize (Hw Hc). split_and!.
  - exact Hw.
  - intros reason. unfold outcome_of. rewrite error_eq_cases.
    destruct (FakeAPIClientProtocol._pending_requests s) as [|[req r] rest]
      eqn:Hp; [done|].
    rewrite fire_ref_eq. simpl.
    assert (FakeAPIClientProtocol.store s !! r = Some Twisted.fresh) as Hr.
    { apply (Hw (req, r)). rewrite ?Hp. by apply elem_of_cons; left. }
    by rewrite Hr.
  - intros entityType request content. unfold outcome_of.
    rewrite response_eq_cases.
    destruct (FakeAPIClientProtocol._pending_requests s) as [|[req r] rest]
      eqn:Hp; [by left|].
    destruct (_ && _); [|by right].
    rewrite fire_ref_eq. simpl.
    assert (FakeAPIClientProtocol.store s !! r = Some Twisted.fresh) as Hr.
    { apply (Hw (req, r)). rewrite ?Hp. by apply elem_of_cons; left. }
    rewrite Hr. by left.
Qed.

Lemma answers_never_hit_a_fired_deferred_while_connected_witness :
  let calls :=
    [FakeAPIClientProtocol.call_sendRequest "Client" "FullStatus" None None 1;
     FakeAPIClientProtocol.call_sendRequest "Client" "ServiceGet" None None 1;
     FakeAPIClientProtocol.call_error (Twisted.OtherFailure JNull)] in
  let s := FakeAPIClientProtocol.history calls FakeAPIClientProtocol.init in
  FakeAPIClientProtocol.connected s = true
  ∧ outcome_of (FakeAPIClientProtocol.error (Twisted.OtherFailure JNull)) s
    = Ok tt
  ∧ FakeAPIClientProtocol.deferred 1%nat s = Some Twisted.fresh.
Proof.
  intros calls s.
  destruct (answers_never_hit_a_fired_deferred_while_connected calls eq_refl)
    as (Hw & Herr & _).
  split_and!; [reflexivity|apply Herr|].
  apply (Hw (FakeAPIClientProtocol.mkRequest "Client" "ServiceGet" None None 1,
             1%nat)).
  vm_compute. apply elem_of_cons. by left.
Defined.

Section ProtocolFrame.
Import Twisted FakeAPIClientProtocol Shape.

(** From [s] to [s'] no Deferred that has fired has changed, none that is
    not pending has changed, and no old Deferred has become pending. *)
Let settled (s s' : state) : Prop :=
  (length (store s) ≤ length (store s'))%nat
  ∧ (∀ r d, store s !! r = Some d → called d = true → store s' !! r = Some d)
  ∧ (∀ r, (r < length (store s))%nat → r ∉ (_pending_requests s).*2 →
          store s' !! r = store s !! r ∧ (r ∉ (_pending_requests s').*2)).

Lemma settled_refl s : settled s s.
Proof. split_and!; done. Qed.

Lemma settled_trans s1 s2 s3 : settled s1 s2 → settled s2 s3 → settled s1 s3.
Proof.
  intros (Hl1 & Hf1 & Hn1) (Hl2 & Hf2 & Hn2). split_and!.
  - lia.
  - intros r d Hr Hd. apply Hf2; [|done]. by apply Hf1.
  - intros r Hr Hnot. destruct (Hn1 r Hr Hnot) as [Heq Hnot'].
    destruct (Hn2 r) as [Heq' Hnot'']; [lia|done|].
    split; [congruence|done].
Qed.

Lemma settled_fire_first req r rest v s :
  _pending_requests s = (req, r) :: rest →
  settled s (set_pending_requests rest s)
  ∧ settled s (fire_ref r v (set_pending_requests rest s)).2.
Proof.
  intros Hp.
  assert (∀ r', r' ∉ (_pending_requests s).*2 → (r' ∉ rest.*2) ∧ r' ≠ r)
    as Hnot.
  { intros r' Hr'. rewrite Hp in Hr'. simpl in Hr'.
    apply not_elem_of_cons in Hr'. tauto. }
  split.
  - split_and!; simpl; try done. intros r' _ Hr'. split; [done|].
    by apply Hnot.
  - rewrite fire_ref_eq. simpl.
    destruct (store s !! r) as [d|] eqn:Hd.
    + destruct (called d) eqn:Hcd; simpl.
      * split_and!; simpl; try done. intros r' _ Hr'. split; [done|].
        by apply Hnot.
      * split_and!; simpl.
        -- by rewrite length_insert.
        -- intros r' d' Hr' Hd'. rewrite list_lookup_insert_ne; [done|].
           intros ->. congruence.
        -- intros r' _ Hr'. destruct (Hnot r' Hr') as [Hrest Hne].
           split; [|done]. by rewrite list_lookup_insert_ne.
    + split_and!; simpl; try done. intros r' _ Hr'. split; [done|].
      by apply Hnot.
Qed.

Lemma settled_append s s' x :
  store s' = store s ++ [x] →
  _pending_requests s' = _pending_requests s
  ∨ (∃ req, _pending_requests s'
            = _pending_requests s ++ [(req, length (store s))]) →
  settled s s'.
Proof.
  intros Hstore Hpend. split_and!.
  - rewrite Hstore, length_app. lia.
  - intros r d Hr _. rewrite Hstore. by apply lookup_app_l_Some.
  - intros r Hlt Hnot. split.
    + rewrite Hstore. by apply lookup_app_l.
    + destruct Hpend as [->|[req ->]]; [done|].
      rewrite fmap_app. simpl.
      rewrite elem_of_app, list_elem_of_singleton. intros [?|?]; [done|lia].
Qed.

Lemma settled_sendRequest t r e p v s :
  settled s (sendRequest t r e p v s).2.
Proof.
  rewrite sendRequest_eq_cases.
  destruct (_queued_errors s) as [|reason rest].
  - destruct (_queued_responses s) as [|[[pt pi] c] rest].
    + eapply settled_append; simpl; [done|]. right. by eexists.
    + destruct (_ && _); (eapply settled_append; simpl; [done|by left]).
  - eapply settled_append; simpl; [done|by left].
Qed.

Lemma settled_invoke m s : settled s (state_after (invoke m) s).
Proof.
  unfold state_after. destruct m as [t r e p v|t r c|reason|]; simpl.
  - pose proof (settled_sendRequest t r e p v s) as H.
    unfold bind. by destruct (sendRequest t r e p v s) as [[n|x] s'].
  - rewrite response_eq_cases.
    destruct (_pending_requests s) as [|[req r'] rest] eqn:Hp.
    + simpl. split_and!; simpl; done.
    + destruct (settled_fire_first req r' rest (Success c) s Hp) as [H1 H2].
      by destruct (_ && _).
  - rewrite error_eq_cases.
    destruct (_pending_requests s) as [|[req r'] rest] eqn:Hp.
    + simpl. split_and!; simpl; done.
    + by destruct (settled_fire_first req r' rest (Failed reason) s Hp).
  - rewrite loseConnection_eq. simpl. split_and!; simpl.
    + generalize (store s).
      induction ((_pending_requests s).*2) as [|r refs IH]; intros h; simpl;
        [done|].
      etrans; [|apply IH]. by rewrite reject_length.
    + intros r d Hr Hd. by apply reject_all_called.
    + intros r _ Hnot. split; [|done]. by apply reject_all_other.
Qed.

Lemma settled_history calls s : settled s (history calls s).
Proof.
  revert s. induction calls as [|m calls IH]; intros s; simpl.
  - apply settled_refl.
  - eapply settled_trans; [apply settled_invoke|apply IH].
Qed.

Lemma history_settled calls s :
  (∀ r d, store s !! r = Some d → called d = true →
          store (history calls s) !! r = Some d)
  ∧ (∀ r, (r < length (store s))%nat → r ∉ (_pending_requests s).*2 →
          store (history calls s) !! r = store s !! r).
Proof.
  destruct (settled_history calls s) as (_ & Hf & Hn). split; [done|].
  intros r Hr Hnot. by destruct (Hn r Hr Hnot).
Qed.

End ProtocolFrame.

(** X14: a Deferred fires once and for all.  Whatever is called on the
    fake protocol afterwards, raising or not, a Deferred that has fired
    keeps the result it fired with. *)
Theorem fired_deferred_keeps_its_result
    (calls : list FakeAPIClientProtocol.method)
    (s : FakeAPIClientProtocol.state) (r : nat) (d : Twisted.Deferred) :
  FakeAPIClientProtocol.deferred r s = Some d →
  Twisted.called d = true →
  FakeAPIClientProtocol.deferred r (FakeAPIClientProtocol.history calls s)
  = Some d.
Proof. apply (proj1 (history_settled calls s)). Qed.

Lemma fired_deferred_keeps_its_result_witness :
  let s :=
    FakeAPIClientProtocol.history
      [FakeAPIClientProtocol.call_sendRequest "Client" "FullStatus" None None 1;
       FakeAPIClientProtocol.call_response "Client" "FullStatus" (JStr "ok")]
      FakeAPIClientProtocol.init in
  let later :=
    [FakeAPIClientProtocol.call_error (Twisted.OtherFailure JNull);
     FakeAPIClientProtocol.call_loseConnection;
     FakeAPIClientProtocol.call_loseConnection;
     FakeAPIClientProtocol.call_response "Client" "FullStatus" JNull] in
  let ok := Twisted.mkDeferred true (Some (Twisted.Success (JStr "ok"))) in
  FakeAPIClientProtocol.deferred 0%nat s = Some ok
  ∧ Twisted.called ok = true
  ∧ FakeAPIClientProtocol.deferred
      0%nat (FakeAPIClientProtocol.history later s) = Some ok.
Proof.
  intros s later ok. split_and!; [reflexivity|reflexivity|].
  by apply (fired_deferred_keeps_its_result later s 0%nat ok).
Defined.

(** X15: only pending Deferreds are ever fired.  A Deferred that the
    protocol has handed out and no longer holds in [_pending_requests] is
    never touched again, whatever is called afterwards: not by [response]
    or [error], and not by [_loseConnection] either. *)
Theorem deferred_not_pending_is_never_touched
    (calls : list FakeAPIClientProtocol.method)
    (s : FakeAPIClientProtocol.state) (r : nat) :
  (r < length (FakeAPIClientProtocol.store s))%nat →
  r ∉ (FakeAPIClientProtocol._pending_requests s).*2 →
  FakeAPIClientProtocol.deferred r (FakeAPIClientProtocol.history calls s)
  = FakeAPIClientProtocol.deferred r s.
Proof. apply (proj2 (history_settled calls s)). Qed.

Lemma deferred_not_pending_is_never_touched_witness :
  let s :=
    FakeAPIClientProtocol.history
      [FakeAPIClientProtocol.call_sendRequest "Client" "FullStatus" None None 1;
       FakeAPIClientProtocol.call_sendRequest "Client" "ServiceGet" None None 1;
       FakeAPIClientProtocol.call_response "Client" "FullStatus" (JStr "ok")]
      FakeAPIClientProtocol.init in
  let later :=
    [FakeAPIClientProtocol.call_loseConnection;
     FakeAPIClientProtocol.call_error (Twisted.OtherFailure JNull)] in
  (0 < length (FakeAPIClientProtocol.store s))%nat
  ∧ (0%nat ∉ (FakeAPIClientProtocol._pending_requests s).*2)
  ∧ FakeAPIClientProtocol.deferred
      0%nat (FakeAPIClientProtocol.history later s)
    = Some (Twisted.mkDeferred true (Some (Twisted.Success (JStr "ok")))).
Proof.
  intros s later.
  assert (0 < length (FakeAPIClientProtocol.store s))%nat as Hlt
    by (vm_compute; lia).
  assert (0%nat ∉ (FakeAPIClientProtocol._pending_requests s).*2) as Hnot.
  { intros H. vm_compute in H.
    apply elem_of_cons in H as [H|H]; [discriminate H|].
    by apply elem_of_nil in H. }
  split_and!; [exact Hlt|exact Hnot|].
  by rewrite (deferred_not_pending_is_never_touched later s 0%nat Hlt Hnot).
Defined.

(** X16: answering after a close.  [_loseConnection] leaves the requests
    in [_pending_requests]; a [response] or an [error] that comes after it
    takes the first of them off the list and raises [AlreadyCalledError],
    because its Deferred has been called, by the close if not before, and
    the store of Deferreds is left as the close left it. *)
Theorem answer_after_close_raises
    (s : FakeAPIClientProtocol.state) (req : FakeAPIClientProtocol.request)
    (r : nat) (rest : list (FakeAPIClientProtocol.request * nat))
    (d : Twisted.Deferred) (content : json) (reason : Twisted.failure) :
  FakeAPIClientProtocol._pending_requests s = (req, r) :: rest →
  FakeAPIClientProtocol.store s !! r = Some d →
  let closed := state_after FakeAPIClientProtocol._loseConnection s in
  let respond :=
    FakeAPIClientProtocol.response
      (FakeAPIClientProtocol.entityType req)
      (FakeAPIClientProtocol.requestInfo req) content in
  FakeAPIClientProtocol._pending_requests closed = (req, r) :: rest
  ∧ respond closed
    = (Raise AlreadyCalledError,
       FakeAPIClientProtocol.set_pending_requests rest closed)
  ∧ FakeAPIClientProtocol.error reason closed
    = (Raise AlreadyCalledError,
       FakeAPIClientProtocol.set_pending_requests rest closed).
Proof.
  intros Hp Hd closed respond. subst closed respond. unfold state_after.
  rewrite loseConnection_eq. cbn [snd].
  set (closed := FakeAPIClientProtocol.mkState _ _ _ _ _ _).
  assert (∃ d', FakeAPIClientProtocol.store closed !! r = Some d'
                ∧ Twisted.called d' = true) as (d' & Hd' & Hcalled).
  { subst closed. simpl. rewrite Hp. destruct (Twisted.called d) eqn:Hc.
    - exists d. split; [|done]. by apply reject_all_called.
    - exists FakeAPIClientProtocol.connection_done. split; [|done].
      eapply reject_all_pending; [|done..]. simpl. by apply elem_of_cons; left. }
  assert (FakeAPIClientProtocol._pending_requests closed = (req, r) :: rest)
    as Hp' by (by subst closed).
  clearbody closed. split_and!.
  - done.
  - rewrite response_eq_cases, Hp'. rewrite !String.eqb_refl. simpl.
    rewrite fire_ref_eq. simpl. by rewrite Hd', Hcalled.
  - rewrite error_eq_cases, Hp'. rewrite fire_ref_eq. simpl.
    by rewrite Hd', Hcalled.
Qed.

Lemma answer_after_close_raises_witness :
  let s :=
    state_after
      (FakeAPIClientProtocol.sendRequest "Client" "FullStatus" None None 1)
      FakeAPIClientProtocol.init in
  let closed := state_after FakeAPIClientProtocol._loseConnection s in
  FakeAPIClientProtocol.store s !! 0%nat = Some Twisted.fresh
  ∧ outcome_of
      (FakeAPIClientProtocol.response "Client" "FullStatus" (JStr "late"))
      closed
    = Raise AlreadyCalledError
  ∧ FakeAPIClientProtocol.deferred 0%nat
      (state_after
         (FakeAPIClientProtocol.response "Client" "FullStatus" (JStr "late"))
         closed)
    = Some FakeAPIClientProtocol.connection_done.
Proof.
  intros s closed.
  destruct (answer_after_close_raises s
              (FakeAPIClientProtocol.mkRequest "Client" "FullStatus" None None 1)
              0%nat [] Twisted.fresh (JStr "late") Twisted.ConnectionDone
              eq_refl eq_refl) as (_ & Hresp & _).
  simpl in Hresp. fold s closed in Hresp.
  unfold outcome_of, state_after. rewrite Hresp.
  split_and!; reflexivity.
Defined.

(** X17: a response that does not match loses the request.  When the
    entity type or the request name given to [response] is not that of the
    first pending request, [AssertionError] is raised after the request
    has been taken off the list: its Deferred is not fired, and on a
    protocol reached from a new one by any calls nothing that is called
    afterwards fires it. *)
Theorem mismatched_response_loses_the_request
    (calls later : list FakeAPIClientProtocol.method)
    (req : FakeAPIClientProtocol.request) (r : nat)
    (rest : list (FakeAPIClientProtocol.request * nat))
    (entityType request : string) (content : json) :
  let s := FakeAPIClientProtocol.history calls FakeAPIClientProtocol.init in
  let s' :=
    state_after (FakeAPIClientProtocol.response entityType request content) s in
  FakeAPIClientProtocol._pending_requests s = (req, r) :: rest →
  entityType ≠ FakeAPIClientProtocol.entityType req
  ∨ request ≠ FakeAPIClientProtocol.requestInfo req →
  outcome_of (FakeAPIClientProtocol.response entityType request content) s
  = Raise AssertionError
  ∧ FakeAPIClientProtocol._pending_requests s' = rest
  ∧ FakeAPIClientProtocol.deferred r (FakeAPIClientProtocol.history later s')
    = FakeAPIClientProtocol.deferred r s
  ∧ (FakeAPIClientProtocol.connected s = true →
     FakeAPIClientProtocol.deferred r (FakeAPIClientProtocol.history later s')
     = Some Twisted.fresh).
Proof.
  intros s s' Hp Hne.
  assert (FakeAPIClientProtocol.response entityType request content s
          = (Raise AssertionError,
             FakeAPIClientProtocol.set_pending_requests rest s)) as Hresp.
  { rewrite response_eq_cases, Hp.
    destruct (String.eqb_spec entityType (FakeAPIClientProtocol.entityType req))
      as [He|He]; simpl; [|done].
    destruct (String.eqb_spec request (FakeAPIClientProtocol.requestInfo req))
      as [Hr|Hr]; simpl; [|done].
    by destruct Hne. }
  destruct (history_healthy calls) as (Ha & _ & Hnd & Hw). fold s in Ha, Hnd, Hw.
  subst s'. unfold outcome_of, state_after. rewrite Hresp. cbn [fst snd].
  assert (FakeAPIClientProtocol.deferred r
            (FakeAPIClientProtocol.history later
               (FakeAPIClientProtocol.set_pending_requests rest s))
          = FakeAPIClientProtocol.deferred r s) as Hsame.
  { apply (proj2 (history_settled
                    later (FakeAPIClientProtocol.set_pending_requests rest s))).
    - unfold FakeAPIClientProtocol.allocated in Ha. rewrite Hp in Ha.
      apply Forall_cons in Ha as [Hlt _]. exact Hlt.
    - simpl. rewrite Hp in Hnd. simpl in Hnd.
      by apply NoDup_cons in Hnd as [Hnot _]. }
  split_and!; [done|done|exact Hsame|].
  intros Hc. rewrite Hsame. apply (Hw Hc (req, r)).
  rewrite Hp. by apply elem_of_cons; left.
Qed.

Lemma mismatched_response_loses_the_request_witness :
  let calls :=
    [FakeAPIClientProtocol.call_sendRequest "Client" "FullStatus" None None 1] in
  let s := FakeAPIClientProtocol.history calls FakeAPIClientProtocol.init in
  let s' :=
    state_after (FakeAPIClientProtocol.response "Client" "ServiceGet" JNull) s in
  let later :=
    [FakeAPIClientProtocol.call_response "Client" "FullStatus" (JStr "ok");
     FakeAPIClientProtocol.call_loseConnection] in
  "ServiceGet" ≠ "FullStatus"
  ∧ FakeAPIClientProtocol.connected s = true
  ∧ outcome_of (FakeAPIClientProtocol.response "Client" "ServiceGet" JNull) s
    = Raise AssertionError
  ∧ FakeAPIClientProtocol.deferred
      0%nat (FakeAPIClientProtocol.history later s')
    = Some Twisted.fresh.
Proof.
  intros calls s s' later.
  assert ("ServiceGet" ≠ "FullStatus") as Hne by discriminate.
  destruct (mismatched_response_loses_the_request
              calls later
              (FakeAPIClientProtocol.mkRequest "Client" "FullStatus" None None 1)
              0%nat [] "Client" "ServiceGet" JNull eq_refl (or_intror Hne))
    as (Hraise & _ & _ & Hnever).
  split_and!; [exact Hne|reflexivity|exact Hraise|by apply Hnever].
Defined.

(** ** FakeAPIClientProtocol: first in, first out *)

Section FirstInFirstOut.
Import Twisted FakeAPIClientProtocol.

Lemma request_eta (r : request) :
  mkRequest (entityType r) (requestInfo r) (entityId r) (params r)
            (facade_version r) = r.
Proof. by destruct r. Qed.

(** With nothing queued, the requests sent become pending in the order
    sent, each with a new unfired Deferred. *)
Lemma send_all_idle rs s :
  _queued_errors s = [] → _queued_responses s = [] →
  send_all rs s
  = (Ok (seq (length (store s)) (length rs)),
     mkState (connected s) (disconnected s)
             (_pending_requests s ++ zip rs (seq (length (store s)) (length rs)))
             [] [] (store s ++ replicate (length rs) fresh)).
Proof.
  revert s. induction rs as [|r rs IH]; intros s He Hq.
  - simpl. unfold ret. rewrite !app_nil_r. destruct s; simpl in *. by subst.
  - cbn [send_all]. unfold bind at 1.
    rewrite (sendRequest_nothing_queued _ _ _ _ _ _ He Hq), request_eta.
    unfold bind at 1. rewrite IH by done. simpl.
    rewrite length_app, Nat.add_1_r. simpl. unfold ret.
    rewrite <- !app_assoc. reflexivity.
Qed.

(** Responses given in the order of the pending requests resolve them one
    by one. *)
Lemma respond_all_pending (answers : list (request * json)) :
  ∀ (refs : list nat) rest s,
    length refs = length answers →
    NoDup refs →
    _pending_requests s = zip answers.*1 refs ++ rest →
    (∀ r, r ∈ refs → store s !! r = Some fresh) →
    ∃ s', respond_all answers s = (Ok tt, s')
          ∧ _pending_requests s' = rest
          ∧ length (store s') = length (store s)
          ∧ (∀ (i : nat) r a,
               refs !! i = Some r → answers !! i = Some a →
               store s' !! r = Some (mkDeferred true (Some (Success a.2))))
          ∧ (∀ r, r ∉ refs → store s' !! r = store s !! r).
Proof.
  induction answers as [|a answers IH]; intros refs rest s Hlen Hnd Hp Hfresh.
  - destruct refs; [|done]. exists s. simpl in *. split_and!; try done.
  - destruct refs as [|r refs]; [done|]. simpl in Hlen. injection Hlen as Hlen.
    apply NoDup_cons in Hnd as [Hr Hnd]. simpl in Hp.
    unfold respond_all. cbn [for_each]. unfold bind at 1.
    rewrite response_eq_cases, Hp. cbn [fst snd].
    rewrite !String.eqb_refl. cbn [andb]. rewrite fire_ref_eq.
    cbn [store set_pending_requests].
    rewrite (Hfresh r) by (by apply elem_of_cons; left). cbn [called fresh].
    set (s1 := set_store _ _).
    destruct (IH refs rest s1 Hlen Hnd) as (s' & Hall & Hp' & Hl' & Hres & Hoth).
    { done. }
    { intros r' Hr'. subst s1. simpl. rewrite list_lookup_insert_ne.
      - apply Hfresh. by apply elem_of_cons; right.
      - by intros ->. }
    exists s'. fold (respond_all answers). rewrite Hall.
    split_and!; try done.
    + rewrite Hl'. subst s1. simpl. by rewrite length_insert.
    + intros [|i] r' a' Hi Ha; simpl in Hi, Ha.
      * injection Hi as <-. injection Ha as <-.
        rewrite (Hoth r Hr). subst s1. simpl.
        apply list_lookup_insert_eq. eapply lookup_lt_Some.
        apply (Hfresh r). by apply elem_of_cons; left.
      * by apply (Hres i).
    + intros r' Hr'. apply not_elem_of_cons in Hr' as [Hne Hr'].
      rewrite (Hoth r' Hr'). subst s1. simpl.
      by rewrite list_lookup_insert_ne.
Qed.

End FirstInFirstOut.

(** X18: first in, first out.  On a protocol with nothing pending and
    nothing queued, requests sent one after the other each get a new
    Deferred and become pending in the order sent: [requests] lists them
    in that order and [request] is the one sent last.  Responses given in
    the same order, each with the entity type and the request name of its
    request, then all succeed, leave nothing pending, and the Deferred of
    the i-th request has fired with the content of the i-th response. *)
Theorem requests_are_answered_first_in_first_out
    (s : FakeAPIClientProtocol.state)
    (answers : list (FakeAPIClientProtocol.request * json)) :
  FakeAPIClientProtocol._pending_requests s = [] →
  FakeAPIClientProtocol._queued_errors s = [] →
  FakeAPIClientProtocol._queued_responses s = [] →
  let n := length (FakeAPIClientProtocol.store s) in
  let sent := state_after (FakeAPIClientProtocol.send_all answers.*1) s in
  let answered := state_after (FakeAPIClientProtocol.respond_all answers) sent in
  outcome_of (FakeAPIClientProtocol.send_all answers.*1) s
  = Ok (seq n (length answers))
  ∧ FakeAPIClientProtocol.requests sent = answers.*1
  ∧ FakeAPIClientProtocol.request_property sent = last answers.*1
  ∧ outcome_of (FakeAPIClientProtocol.respond_all answers) sent = Ok tt
  ∧ FakeAPIClientProtocol._pending_requests answered = []
  ∧ (∀ (i : nat) a,
       answers !! i = Some a →
       FakeAPIClientProtocol.deferred (n + i) answered
       = Some (Twisted.mkDeferred true (Some (Twisted.Success a.2)))).
Proof.
  intros Hp He Hq n sent answered. subst sent answered.
  unfold outcome_of, state_after.
  rewrite (send_all_idle _ _ He Hq). cbn [fst snd].
  rewrite length_fmap, Hp. cbn [app]. fold n.
  set (sent := FakeAPIClientProtocol.mkState _ _ _ _ _ _).
  assert ((zip answers.*1 (seq n (length answers))).*1 = answers.*1) as Hfst.
  { apply fst_zip. by rewrite length_fmap, length_seq. }
  destruct (respond_all_pending answers (seq n (length answers)) [] sent)
    as (s' & Hall & Hp' & _ & Hres & _).
  { apply length_seq. }
  { apply NoDup_seq. }
  { subst sent. simpl. by rewrite app_nil_r. }
  { intros r Hr. apply list_elem_of_lookup in Hr as [i Hi].
    apply lookup_seq in Hi as [-> Hi]. subst sent. simpl.
    rewrite lookup_app_r by (subst n; lia).
    apply lookup_replicate_2. subst n. lia. }
  rewrite Hall. cbn [fst snd]. split_and!; try done.
  - unfold FakeAPIClientProtocol.request_property. subst sent.
    cbn [FakeAPIClientProtocol._pending_requests].
    rewrite <- fmap_last. by rewrite Hfst.
  - intros i a Hi. apply (Hres i); [|done].
    apply lookup_seq_lt. by eapply lookup_lt_Some.
Qed.

Lemma requests_are_answered_first_in_first_out_witness :
  let status :=
    FakeAPIClientProtocol.mkRequest "Client" "FullStatus" None None 1 in
  let get :=
    FakeAPIClientProtocol.mkRequest "Client" "ServiceGet" None
                                    (Some (JObj [("ServiceName", JStr "db")])) 1 in
  let answers := [(status, JStr "first"); (get, JStr "second")] in
  let answered :=
    state_after (FakeAPIClientProtocol.respond_all answers)
      (state_after (FakeAPIClientProtocol.send_all [status; get])
                   FakeAPIClientProtocol.init) in
  FakeAPIClientProtocol._pending_requests FakeAPIClientProtocol.init = []
  ∧ FakeAPIClientProtocol.deferred 0%nat answered
    = Some (Twisted.mkDeferred true (Some (Twisted.Success (JStr "first"))))
  ∧ FakeAPIClientProtocol.deferred 1%nat answered
    = Some (Twisted.mkDeferred true (Some (Twisted.Success (JStr "second")))).
Proof.
  intros status get answers answered.
  destruct (requests_are_answered_first_in_first_out
              FakeAPIClientProtocol.init answers eq_refl eq_refl eq_refl)
    as (_ & _ & _ & _ & _ & Hres).
  split_and!; [reflexivity| |].
  - exact (Hres 0%nat (status, JStr "first") eq_refl).
  - exact (Hres 1%nat (get, JStr "second") eq_refl).
Defined.

(** ** FakeAPIClientProtocol: outcomes given in advance *)

Section Replay.
Import Twisted FakeAPIClientProtocol.

Lemma send_all_app rs1 rs2 s :
  send_all (rs1 ++ rs2) s
  = (let! ds1 := send_all rs1 in
     let! ds2 := send_all rs2 in
     ret (ds1 ++ ds2)) s.
Proof.
  revert s. induction rs1 as [|r rs1 IH]; intros s; simpl.
  - unfold bind, ret. by destruct (send_all rs2 s) as [[ds|e] s'].
  - unfold bind, ret in *.
    destruct (sendRequest _ _ _ _ _ s) as [[d|e] s1]; [|done].
    rewrite IH.
    destruct (send_all rs1 s1) as [[ds1|e] s2]; [|done].
    by destruct (send_all rs2 s2) as [[ds2|e] s3].
Qed.

Lemma queue_errors es s :
  _pending_requests s = [] →
  for_each es error s = (Ok tt, set_queued_errors (_queued_errors s ++ es) s).
Proof.
  revert s. induction es as [|e es IH]; intros s Hp; simpl.
  - unfold ret. rewrite app_nil_r. by destruct s.
  - unfold bind. rewrite error_eq_cases, Hp. rewrite IH by done.
    unfold set_queued_errors. simpl. by rewrite <- app_assoc.
Qed.

(** The triple [response] queues for a request and a content. *)
Let queued (a : request * json) : string * string * json :=
  (entityType a.1, requestInfo a.1, a.2).

Lemma queue_responses (answers : list (request * json)) s :
  _pending_requests s = [] →
  respond_all answers s
  = (Ok tt,
     set_queued_responses (_queued_responses s ++ (queued <$> answers)) s).
Proof.
  unfold respond_all.
  revert s. induction answers as [|a answers IH]; intros s Hp; simpl.
  - unfold ret. rewrite app_nil_r. by destruct s.
  - unfold bind. rewrite response_eq_cases, Hp. rewrite IH by done.
    unfold set_queued_responses. simpl. by rewrite <- app_assoc.
Qed.

Lemma drain_errors rs :
  ∀ es rest s,
    length rs = length es →
    _queued_errors s = es ++ rest →
    send_all rs s
    = (Ok (seq (length (store s)) (length rs)),
       mkState (connected s) (disconnected s) (_pending_requests s) rest
               (_queued_responses s)
               (store s
                ++ ((λ e, mkDeferred true (Some (Failed e))) <$> es))).
Proof.
  induction rs as [|r rs IH]; intros es rest s Hlen He.
  - destruct es; [|done]. simpl in *. unfold ret. rewrite app_nil_r.
    destruct s; simpl in *. by subst.
  - destruct es as [|e es]; [done|]. simpl in Hlen. injection Hlen as Hlen.
    cbn [send_all]. unfold bind at 1.
    rewrite (sendRequest_queued_error _ _ _ _ _ _ _ _ He).
    unfold bind at 1. rewrite (IH es rest) by done. simpl.
    rewrite length_app, Nat.add_1_r. unfold ret.
    rewrite <- !app_assoc. reflexivity.
Qed.

Lemma drain_responses (answers : list (request * json)) :
  ∀ rest s,
    _queued_errors s = [] →
    _queued_responses s = (queued <$> answers) ++ rest →
    send_all answers.*1 s
    = (Ok (seq (length (store s)) (length answers)),
       mkState (connected s) (disconnected s) (_pending_requests s) [] rest
               (store s
                ++ ((λ a : request * json,
                       mkDeferred true (Some (Success a.2))) <$> answers))).
Proof.
  induction answers as [|a answers IH]; intros rest s He Hq.
  - simpl in *. unfold ret. rewrite app_nil_r.
    destruct s; simpl in *. by subst.
  - cbn [fmap list_fmap send_all]. unfold bind at 1.
    rewrite (sendRequest_queued_response _ _ _ _ _ _ _ _ He Hq).
    unfold bind at 1. rewrite (IH rest) by (simpl; done). simpl.
    rewrite length_app, Nat.add_1_r. unfold ret.
    rewrite <- !app_assoc, ?He. reflexivity.
Qed.

End Replay.

(** X19: outcomes given in advance are replayed in order, errors first.
    On a protocol with nothing pending and nothing queued, errors and
    responses given before any request are queued.  The requests sent
    afterwards then all return a Deferred that has fired: as many as there
    are errors get the errors, in the order they were given, whatever they
    ask for; the next ones, which ask for what the responses were given
    for, get the contents of the responses in the order given.  Neither
    queue is left with anything and no request becomes pending. *)
Theorem queued_outcomes_are_replayed_in_order
    (s : FakeAPIClientProtocol.state)
    (errors : list Twisted.failure)
    (failing : list FakeAPIClientProtocol.request)
    (answers : list (FakeAPIClientProtocol.request * json)) :
  FakeAPIClientProtocol._pending_requests s = [] →
  FakeAPIClientProtocol._queued_errors s = [] →
  FakeAPIClientProtocol._queued_responses s = [] →
  length failing = length errors →
  let n := length (FakeAPIClientProtocol.store s) in
  let given :=
    state_after (for_each errors FakeAPIClientProtocol.error ;;;
                 FakeAPIClientProtocol.respond_all answers) s in
  let send := FakeAPIClientProtocol.send_all (failing ++ answers.*1) in
  FakeAPIClientProtocol._queued_errors given = errors
  ∧ length (FakeAPIClientProtocol._queued_responses given) = length answers
  ∧ outcome_of send given = Ok (seq n (length errors + length answers))
  ∧ FakeAPIClientProtocol._pending_requests (state_after send given) = []
  ∧ FakeAPIClientProtocol._queued_errors (state_after send given) = []
  ∧ FakeAPIClientProtocol._queued_responses (state_after send given) = []
  ∧ (∀ (i : nat) e,
       errors !! i = Some e →
       FakeAPIClientProtocol.deferred (n + i) (state_after send given)
       = Some (Twisted.mkDeferred true (Some (Twisted.Failed e))))
  ∧ (∀ (j : nat) a,
       answers !! j = Some a →
       FakeAPIClientProtocol.deferred (n + length errors + j)
                                      (state_after send given)
       = Some (Twisted.mkDeferred true (Some (Twisted.Success a.2)))).
Proof.
  intros Hp He Hq Hlen n given send.
  set (queued := λ a : FakeAPIClientProtocol.request * json,
         (FakeAPIClientProtocol.entityType a.1,
          FakeAPIClientProtocol.requestInfo a.1, a.2)).
  assert (given
          = FakeAPIClientProtocol.set_queued_responses
              (queued <$> answers)
              (FakeAPIClientProtocol.set_queued_errors errors s)) as Hgiven.
  { subst given. unfold state_after, bind.
    rewrite (queue_errors errors s Hp), He.
    rewrite queue_responses by done. simpl. by rewrite Hq. }
  clearbody given. subst given send.
  set (given := FakeAPIClientProtocol.set_queued_responses _ _).
  assert (FakeAPIClientProtocol.send_all (failing ++ answers.*1) given
          = (Ok (seq n (length errors + length answers)),
             FakeAPIClientProtocol.mkState
               (FakeAPIClientProtocol.connected s)
               (FakeAPIClientProtocol.disconnected s) [] [] []
               (FakeAPIClientProtocol.store s
                ++ ((λ e, Twisted.mkDeferred true (Some (Twisted.Failed e)))
                    <$> errors)
                ++ ((λ a : FakeAPIClientProtocol.request * json,
                       Twisted.mkDeferred true (Some (Twisted.Success a.2)))
                    <$> answers)))) as Hsend.
  { rewrite send_all_app. unfold bind at 1.
    rewrite (drain_errors failing errors [] given Hlen)
      by (subst given; simpl; by rewrite app_nil_r).
    unfold bind at 1.
    rewrite (drain_responses answers [])
      by (subst given; simpl; by rewrite ?app_nil_r).
    subst given. simpl. unfold ret.
    rewrite Hp, Hlen, length_app, length_fmap.
    rewrite <- seq_app, <- app_assoc. by fold n. }
  unfold outcome_of, state_after. rewrite Hsend. cbn [fst snd].
  split_and!; try done.
  - subst given. simpl. by rewrite length_fmap.
  - intros i e Hi. unfold FakeAPIClientProtocol.deferred. simpl.
    rewrite lookup_app_r by (subst n; lia).
    replace (n + i - length (FakeAPIClientProtocol.store s))%nat with i
      by (subst n; lia).
    rewrite lookup_app_l by (rewrite length_fmap; by eapply lookup_lt_Some).
    by rewrite list_lookup_fmap, Hi.
  - intros j a Hj. unfold FakeAPIClientProtocol.deferred. simpl.
    rewrite lookup_app_r by (subst n; lia).
    rewrite lookup_app_r by (rewrite length_fmap; subst n; lia).
    rewrite length_fmap.
    replace (n + length errors + j - length (FakeAPIClientProtocol.store s)
             - length errors)%nat with j by (subst n; lia).
    by rewrite list_lookup_fmap, Hj.
Qed.

Lemma queued_outcomes_are_replayed_in_order_witness :
  let refused := Twisted.OtherFailure (JStr "refused") in
  let status :=
    FakeAPIClientProtocol.mkRequest "Client" "FullStatus" None None 1 in
  let get :=
    FakeAPIClientProtocol.mkRequest "Client" "ServiceGet" None None 1 in
  let given :=
    state_after
      (for_each [refused] FakeAPIClientProtocol.error ;;;
       FakeAPIClientProtocol.respond_all [(get, JStr "config")])
      FakeAPIClientProtocol.init in
  let after :=
    state_after (FakeAPIClientProtocol.send_all [status; get]) given in
  length [status] = length [refused]
  ∧ FakeAPIClientProtocol.deferred 0%nat after
    = Some (Twisted.mkDeferred true (Some (Twisted.Failed refused)))
  ∧ FakeAPIClientProtocol.deferred 1%nat after
    = Some (Twisted.mkDeferred true (Some (Twisted.Success (JStr "config"))))
  ∧ FakeAPIClientProtocol._pending_requests after = [].
Proof.
  intros refused status get given after.
  destruct (queued_outcomes_are_replayed_in_order
              FakeAPIClientProtocol.init [refused] [status]
              [(get, JStr "config")] eq_refl eq_refl eq_refl eq_refl)
    as (_ & _ & _ & Hpend & _ & _ & Herr & Hresp).
  split_and!; [reflexivity| | |exact Hpend].
  - exact (Herr 0%nat refused eq_refl).
  - exact (Hresp 0%nat (get, JStr "config") eq_refl).
Defined.

(** X21: what the [last...] properties do with the last request.  On a
    backend reached from a new one by any calls that write integer request
    ids, and holding a request, the last request is a JSON object; [lastVersion] returns its [Version], or
    [None] when it has none, and never raises, whereas [lastType],
    [lastRequest], [lastId] and [lastParams] return the member of that
    name and raise [KeyError] when the request has no such member.  None
    of them changes the backend. *)
Theorem last_properties_read_the_last_request
    (version : Z) (calls : list FakeAPIBackend.method) :
  let s := FakeAPIBackend.history calls (FakeAPIBackend.init version) in
  let member (key : string) (members : list (string * json)) :=
    (from_option Ok (Raise KeyError) (assoc_get key members), s) in
  forallb Shape.integer_id calls = true →
  FakeAPIBackend.requests s ≠ ∅ →
  ∃ members,
    FakeAPIBackend.last s = (Ok (JObj members), s)
    ∧ FakeAPIBackend.lastVersion s = (Ok (assoc_get "Version" members), s)
    ∧ FakeAPIBackend.lastType s = member "Type" members
    ∧ FakeAPIBackend.lastRequest s = member "Request" members
    ∧ FakeAPIBackend.lastId s = member "Id" members
    ∧ FakeAPIBackend.lastParams s = member "Params" members.
Proof.
  intros s member _ Hne.
  destruct (largest_key (FakeAPIBackend.requests s))
    as [[Hempty _]|(k & _ & [data Hk] & Hmax)]; [done|].
  destruct (consistent_history calls _ (consistent_init version))
    as [Hstored _].
  destruct (Hstored k data Hk) as (members & -> & _).
  exists members. pose proof (last_largest s k _ Hk Hmax) as Hlast.
  unfold FakeAPIBackend.lastVersion, FakeAPIBackend.lastType,
    FakeAPIBackend.lastRequest, FakeAPIBackend.lastId,
    FakeAPIBackend.lastParams, bind, member.
  rewrite !Hlast. unfold FakeAPIBackend.getitem.
  split_and!; try done;
    match goal with
    | |- context [assoc_get ?key members] =>
        by destruct (assoc_get key members)
    end.
Qed.

Lemma last_properties_read_the_last_request_witness :
  let calls :=
    [FakeAPIBackend.call_write
       (JObj [("RequestId", JInt 1); ("Type", JStr "Admin");
              ("Request", JStr "Login")])] in
  let s := FakeAPIBackend.history calls (FakeAPIBackend.init 1) in
  forallb Shape.integer_id calls = true
  ∧ FakeAPIBackend.requests s ≠ ∅
  ∧ outcome_of FakeAPIBackend.lastVersion s = Ok None
  ∧ outcome_of FakeAPIBackend.lastType s = Ok (JStr "Admin")
  ∧ outcome_of FakeAPIBackend.lastId s = Raise KeyError.
Proof.
  intros calls s.
  assert (FakeAPIBackend.requests s ≠ ∅) as Hne.
  { intros H. assert (FakeAPIBackend.requests s !! 1 = None) as H1
      by (by rewrite H, lookup_empty).
    vm_compute in H1. discriminate H1. }
  destruct (last_properties_read_the_last_request 1 calls eq_refl Hne)
    as (members & Hlast & Hv & Ht & _ & Hi & _).
  fold s in Hlast, Hv, Ht, Hi.
  assert (members = [("RequestId", JInt 1); ("Type", JStr "Admin");
                     ("Request", JStr "Login")]) as ->.
  { vm_compute in Hlast. by injection Hlast as <-. }
  unfold outcome_of. rewrite Hv, Ht, Hi.
  split_and!; [reflexivity|exact Hne|reflexivity..].
Defined.
